(** * Session controller and streaming renderer of the Gemini chat widget

    A shallow embedding of [src/Pages/chat-bot/chat-bot.tsx]: the React
    state of [MyChatBot], its event handlers [handleApiKeySubmit],
    [handleInputChange] and [handleSubmit], and the event loop that
    interleaves user events with the fragments of a streamed answer.

    JavaScript strings are sequences of UTF-16 code units, so that
    [String.prototype.trim] can be written out with the white space set
    of ECMAScript.  The provider SDK is outside the repository: its
    constructor is a parameter of the handlers, and what a stream yields
    arrives as events. *)

From Stdlib Require Import ZArith NArith QArith_base String Ascii DecimalString
  DecimalPos DecimalZ.
From stdpp Require Import base tactics option list.

Local Open Scope Z_scope.
Local Open Scope nat_scope.

(** ** Strings *)

Definition JsString : Type := list N.

(** An ASCII literal of the source as code units. *)
Definition js (s : string) : JsString :=
  N_of_ascii <$> list_ascii_of_string s.

(** [`${n}`] for an integral number: decimal digits, a leading minus sign
    for negatives. *)
Definition toString (n : Z) : JsString :=
  js (NilZero.string_of_int (Z.to_int n)).

(** WhiteSpace and LineTerminator code points of ECMAScript, the ones
    [trim] strips. *)
Definition isWhiteSpace (c : N) : bool :=
  ((9 <=? c) && (c <=? 13) || (c =? 32) || (c =? 160) || (c =? 5760)
   || (8192 <=? c) && (c <=? 8202) || (c =? 8232) || (c =? 8233)
   || (c =? 8239) || (c =? 8287) || (c =? 12288) || (c =? 65279))%N.

Fixpoint trimStart (s : JsString) : JsString :=
  match s with
  | [] => []
  | c :: s' => if isWhiteSpace c then trimStart s' else s
  end.

Definition trimEnd (s : JsString) : JsString :=
  reverse (trimStart (reverse s)).

Definition trim (s : JsString) : JsString :=
  trimEnd (trimStart s).

(** Truthiness of a string: the empty string is the only falsy one. *)
Definition truthy (s : JsString) : bool :=
  match s with [] => false | _ :: _ => true end.

(** ** Data model *)

Inductive Sender : Type := user | bot.

(** [type Message]; [isStreaming?: boolean] is absent on the welcome
    message and on user messages. *)
Record Message : Type := mkMessage {
  id : JsString;
  text : JsString;
  sender : Sender;
  isStreaming : option bool
}.

(** The handle [new GoogleGenerativeAI(key)] returns. *)
Record GoogleGenerativeAI : Type := mkClient { client_apiKey : JsString }.

(** The [useState] cells and the [genAIRef] ref of [MyChatBot]. *)
Record State : Type := mkState {
  messages : list Message;
  inputValue : JsString;
  isLoading : bool;
  apiKey : JsString;
  apiKeyInput : JsString;
  isApiKeySet : bool;
  genAIRef : option GoogleGenerativeAI
}.

Record GenerationConfig : Type := mkGenerationConfig {
  temperature : Q;
  topK : Z;
  topP : Q;
  maxOutputTokens : Z
}.

Record ModelParams : Type := mkModelParams {
  model : JsString;
  generationConfig : GenerationConfig
}.

(** One conversation turn of a request: [{ role, parts: [{ text }] }]. *)
Record Content : Type := mkContent {
  role : JsString;
  parts : list JsString
}.

Record Request : Type := mkRequest {
  req_client : GoogleGenerativeAI;
  req_params : ModelParams;
  contents : list Content
}.

(** What a handler does to the outside world. *)
Inductive Effect : Type :=
| ConsoleError (label : JsString)
| Alert (message : JsString)
| GenerateContentStream (r : Request).

(** The part of a suspended [handleSubmit] call that survives an [await]:
    the constant [botMessageId] and the accumulator [fullText]. *)
Record Task : Type := mkTask {
  botMessageId : JsString;
  fullText : JsString
}.

(** ** Constants of the source *)

Definition welcomeMessage : Message :=
  {| id := js "welcome";
     text := js "Hello, I am an AI assistant powered by Gemini. How can I help you today?";
     sender := bot;
     isStreaming := None |}.

Definition errorText : JsString :=
  js "Sorry, I encountered an error while generating a response. Please try again or check your API key.".

Definition alertText : JsString :=
  js "Failed to initialize Gemini with the provided API key. Please check and try again.".

Definition chatParams : ModelParams :=
  {| model := js "gemini-1.5-pro";
     generationConfig :=
       {| temperature := Qmake 7 10;
          topK := 40%Z;
          topP := Qmake 95 100;
          maxOutputTokens := 1024%Z |} |}.

Definition initialState : State :=
  {| messages := [welcomeMessage];
     inputValue := [];
     isLoading := false;
     apiKey := [];
     apiKeyInput := [];
     isApiKeySet := false;
     genAIRef := None |}.

(** ** State setters *)

(** [setMessages] is only ever called with an updater function. *)
Definition setMessages (f : list Message -> list Message) (s : State) : State :=
  {| messages := f (messages s); inputValue := inputValue s;
     isLoading := isLoading s; apiKey := apiKey s;
     apiKeyInput := apiKeyInput s; isApiKeySet := isApiKeySet s;
     genAIRef := genAIRef s |}.

Definition setInputValue (v : JsString) (s : State) : State :=
  {| messages := messages s; inputValue := v;
     isLoading := isLoading s; apiKey := apiKey s;
     apiKeyInput := apiKeyInput s; isApiKeySet := isApiKeySet s;
     genAIRef := genAIRef s |}.

Definition setIsLoading (b : bool) (s : State) : State :=
  {| messages := messages s; inputValue := inputValue s;
     isLoading := b; apiKey := apiKey s;
     apiKeyInput := apiKeyInput s; isApiKeySet := isApiKeySet s;
     genAIRef := genAIRef s |}.

Definition setApiKey (v : JsString) (s : State) : State :=
  {| messages := messages s; inputValue := inputValue s;
     isLoading := isLoading s; apiKey := v;
     apiKeyInput := apiKeyInput s; isApiKeySet := isApiKeySet s;
     genAIRef := genAIRef s |}.

Definition setApiKeyInput (v : JsString) (s : State) : State :=
  {| messages := messages s; inputValue := inputValue s;
     isLoading := isLoading s; apiKey := apiKey s;
     apiKeyInput := v; isApiKeySet := isApiKeySet s;
     genAIRef := genAIRef s |}.

Definition setIsApiKeySet (b : bool) (s : State) : State :=
  {| messages := messages s; inputValue := inputValue s;
     isLoading := isLoading s; apiKey := apiKey s;
     apiKeyInput := apiKeyInput s; isApiKeySet := b;
     genAIRef := genAIRef s |}.

(** [genAIRef.current = g]. *)
Definition setGenAIRef (g : GoogleGenerativeAI) (s : State) : State :=
  {| messages := messages s; inputValue := inputValue s;
     isLoading := isLoading s; apiKey := apiKey s;
     apiKeyInput := apiKeyInput s; isApiKeySet := isApiKeySet s;
     genAIRef := Some g |}.

(** ** Transcript updaters of the streaming loop

    The three [prevMessages.map(...)] callbacks of [handleSubmit]. *)

Definition withText (fullText : JsString) (msg : Message) : Message :=
  {| id := id msg; text := fullText; sender := sender msg;
     isStreaming := isStreaming msg |}.

Definition withDone (msg : Message) : Message :=
  {| id := id msg; text := text msg; sender := sender msg;
     isStreaming := Some false |}.

Definition withError (msg : Message) : Message :=
  {| id := id msg; text := errorText; sender := sender msg;
     isStreaming := Some false |}.

Definition updateWhere (botMessageId : JsString) (f : Message -> Message)
    (prevMessages : list Message) : list Message :=
  (fun msg => if bool_decide (id msg = botMessageId) then f msg else msg)
    <$> prevMessages.

Definition applyChunk (botMessageId fullText : JsString) :=
  updateWhere botMessageId (withText fullText).

Definition markDone (botMessageId : JsString) :=
  updateWhere botMessageId withDone.

Definition writeError (botMessageId : JsString) :=
  updateWhere botMessageId withError.

(** ** Event handlers *)

Section Handlers.

(** [new GoogleGenerativeAI(key)] of the SDK: [None] when the
    constructor throws. *)
Variable new_GoogleGenerativeAI : JsString -> option GoogleGenerativeAI.

(** [handleApiKeySubmit]: [setApiKey] runs before the [try]. *)
Definition handleApiKeySubmit (s : State) : State * list Effect :=
  let s1 := setApiKey (apiKeyInput s) s in
  match new_GoogleGenerativeAI (apiKeyInput s) with
  | Some g => (setIsApiKeySet true (setGenAIRef g s1), [])
  | None =>
      (s1, [ConsoleError (js "Error initializing Gemini:"); Alert alertText])
  end.

Definition handleInputChange (value : JsString) (s : State) : State :=
  setInputValue value s.

(** [if (!genAIRef.current) genAIRef.current = new GoogleGenerativeAI(apiKey)]:
    the handle the call goes on with, [None] when the constructor
    throws. *)
Definition ensureClient (s : State) : option GoogleGenerativeAI :=
  match genAIRef s with
  | Some g => Some g
  | None => new_GoogleGenerativeAI (apiKey s)
  end.

(** [handleSubmit] up to its first [await].  [now1] and [now2] are what
    the two calls of [Date.now()] return.  The result is the new state,
    the effects, and the suspended call when the function reached
    [await model.generateContentStream(...)]. *)
Definition handleSubmit (now1 now2 : Z) (s : State)
    : State * list Effect * option Task :=
  if negb (truthy (trim (inputValue s))) then (s, [], None)
  else
    let userMessage :=
      {| id := js "user-" ++ toString now1; text := inputValue s;
         sender := user; isStreaming := None |} in
    let botMessageId := js "bot-" ++ toString now2 in
    let botMessage :=
      {| id := botMessageId; text := []; sender := bot;
         isStreaming := Some true |} in
    let s1 :=
      setIsLoading true
        (setInputValue []
           (setMessages (fun prevMessages =>
              prevMessages ++ [userMessage; botMessage]) s)) in
    match ensureClient s1 with
    | Some g =>
        (setGenAIRef g s1,
         [GenerateContentStream
            {| req_client := g; req_params := chatParams;
               contents :=
                 [{| role := js "user"; parts := [text userMessage] |}] |}],
         Some {| botMessageId := botMessageId; fullText := [] |})
    | None =>
        (setIsLoading false (setMessages (writeError botMessageId) s1),
         [ConsoleError (js "Error generating content:")],
         None)
    end.

(** One iteration of [for await (const chunk of result.stream)], its
    update applied at once: the transcript is the one React commits when
    it renders before the next fragment.  Renders that come later are
    the matter of [tick]. *)
Definition onChunk (chunkText : JsString) (t : Task) (s : State)
    : Task * State :=
  let fullText' := fullText t ++ chunkText in
  ({| botMessageId := botMessageId t; fullText := fullText' |},
   setMessages (applyChunk (botMessageId t) fullText') s).

(** The loop ended: the update after it, then [finally]. *)
Definition onStreamEnd (t : Task) (s : State) : State :=
  setIsLoading false (setMessages (markDone (botMessageId t)) s).

(** A rejected request, a stream that throws, or [chunk.text()] that
    throws: [catch], then [finally].  A throw of [getGenerativeModel] or
    of [generateContentStream] itself takes the same path and is this
    event with no fragment before it. *)
Definition onStreamError (t : Task) (s : State) : State * list Effect :=
  (setIsLoading false (setMessages (writeError (botMessageId t)) s),
   [ConsoleError (js "Error generating content:")]).

(** The body of the loop over a whole list of fragments. *)
Fixpoint consume (chunks : list JsString) (t : Task) (s : State)
    : Task * State :=
  match chunks with
  | [] => (t, s)
  | chunkText :: rest =>
      let '(t', s') := onChunk chunkText t s in consume rest t' s'
  end.

(** The component while the call is suspended in the loop, [chunks]
    having arrived so far. *)
Definition handleSubmitSuspended (now1 now2 : Z) (chunks : list JsString)
    (s : State) : State :=
  match handleSubmit now1 now2 s with
  | (s1, _, None) => s1
  | (s1, _, Some t) => (consume chunks t s1).2
  end.

(** How the stream of one request ends. *)
Inductive StreamOutcome : Type := Completed | Faulted.

(** A whole [handleSubmit] call against a provider that yields [chunks]
    and then ends with [outcome]. *)
Definition handleSubmitAsync (now1 now2 : Z) (chunks : list JsString)
    (outcome : StreamOutcome) (s : State) : State * list Effect :=
  match handleSubmit now1 now2 s with
  | (s1, eff, None) => (s1, eff)
  | (s1, eff, Some t) =>
      let '(t', s2) := consume chunks t s1 in
      match outcome with
      | Completed => (onStreamEnd t' s2, eff)
      | Faulted =>
          let '(s3, eff') := onStreamError t' s2 in (s3, eff ++ eff')
      end
  end.

(** ** The event loop *)

(** The component, the suspended [handleSubmit] calls and the effects
    so far. *)
Record World : Type := mkWorld {
  ui : State;
  pending : list Task;
  log : list Effect
}.

Inductive Event : Type :=
| ApiKeyInputChange (value : JsString)
| ApiKeySubmit
| InputChange (value : JsString)
| Submit (now1 now2 : Z)
| StreamChunk (i : nat) (chunkText : JsString)
| StreamEnd (i : nat)
| StreamError (i : nat).

Definition initialWorld : World :=
  {| ui := initialState; pending := []; log := [] |}.

(** One event.  [None] when the rendered tree cannot produce it: the
    key form exists only while [!isApiKeySet] and, its input being
    [required], is not submitted with an empty field; the chat form
    exists only afterwards, and its text input is [disabled={isLoading}].  The
    submit event of the chat form is let through in every state of the
    chat surface, [handleSubmit] having to cope with it.  Stream events
    resume the [i]-th suspended call. *)
Definition step (w : World) (e : Event) : option World :=
  let s := ui w in
  match e with
  | ApiKeyInputChange value =>
      if isApiKeySet s then None
      else Some {| ui := setApiKeyInput value s; pending := pending w;
                   log := log w |}
  | ApiKeySubmit =>
      if isApiKeySet s || negb (truthy (apiKeyInput s)) then None
      else
        let '(s', eff) := handleApiKeySubmit s in
        Some {| ui := s'; pending := pending w; log := log w ++ eff |}
  | InputChange value =>
      if isApiKeySet s && negb (isLoading s)
      then Some {| ui := handleInputChange value s; pending := pending w;
                   log := log w |}
      else None
  | Submit now1 now2 =>
      if isApiKeySet s then
        let '(s', eff, t) := handleSubmit now1 now2 s in
        Some {| ui := s'; pending := pending w ++ option_list t;
                log := log w ++ eff |}
      else None
  | StreamChunk i chunkText =>
      t ← pending w !! i;
      let '(t', s') := onChunk chunkText t s in
      Some {| ui := s'; pending := <[i := t']> (pending w);
              log := log w |}
  | StreamEnd i =>
      t ← pending w !! i;
      Some {| ui := onStreamEnd t s; pending := delete i (pending w);
              log := log w |}
  | StreamError i =>
      t ← pending w !! i;
      let '(s', eff) := onStreamError t s in
      Some {| ui := s'; pending := delete i (pending w);
              log := log w ++ eff |}
  end.

Fixpoint run (w : World) (events : list Event) : option World :=
  match events with
  | [] => Some w
  | e :: rest => w' ← step w e; run w' rest
  end.

Definition reachable (w : World) : Prop :=
  exists events, run initialWorld events = Some w.

End Handlers.

(** Two SDK behaviours to evaluate the handlers with. *)
Definition sdkAccepts (key : JsString) : option GoogleGenerativeAI :=
  Some {| client_apiKey := key |}.

Definition sdkThrows (key : JsString) : option GoogleGenerativeAI := None.

(** ** Vocabulary of the properties *)

(** Empty or white space only. *)
Definition blank (s : JsString) : Prop :=
  Forall (fun c => isWhiteSpace c = true) s.

(** [message.isStreaming && ...] of the render: the flag is present and
    true. *)
Definition streamingNow (msg : Message) : bool :=
  match isStreaming msg with
  | Some true => true
  | _ => false
  end.

Definition streamingCount (msgs : list Message) : nat :=
  length (List.filter streamingNow msgs).

(** Who said what where: the part of a transcript no update may touch. *)
Definition skeleton (msgs : list Message) : list (JsString * Sender) :=
  (fun msg => (id msg, sender msg)) <$> msgs.

(** Where [handleSubmit] puts the placeholder: behind the user message it
    appends with it. *)
Definition placeholderIndex (s : State) : nat :=
  S (length (messages s)).

Definition placeholder (now2 : Z) (text : JsString) (streaming : bool)
    : Message :=
  {| id := js "bot-" ++ toString now2; text := text; sender := bot;
     isStreaming := Some streaming |}.

(** The requests among some effects. *)
Definition requests (effects : list Effect) : list Request :=
  omap (fun e => match e with
                 | GenerateContentStream r => Some r
                 | _ => None
                 end) effects.

(** A request carries a message when one of its turns has the message's
    text as a part; it carries a transcript when it carries each of its
    messages. *)
Definition carriesTurn (msg : Message) (r : Request) : Prop :=
  exists c, c ∈ contents r /\ text msg ∈ parts c.

Definition carriesContext (prior : list Message) (r : Request) : Prop :=
  forall msg, msg ∈ prior -> carriesTurn msg r.

(** What holds of the session between any two events. *)
Definition sessionInv (w : World) : Prop :=
  (isLoading (ui w) = true ->
   inputValue (ui w) = [] /\ isApiKeySet (ui w) = true) /\
  match pending w with
  | [] => isLoading (ui w) = false /\ streamingCount (messages (ui w)) = 0
  | [t] =>
      isLoading (ui w) = true /\
      streamingCount (messages (ui w)) <= 1 /\
      (forall msg, msg ∈ messages (ui w) -> streamingNow msg = true ->
                   id msg = botMessageId t)
  | _ => False
  end.

(** ** States and event sequences to evaluate the handlers on *)

Definition helloExchange : list Message :=
  [welcomeMessage;
   {| id := js "user-5"; text := js "Hello"; sender := user;
      isStreaming := None |};
   {| id := js "bot-5"; text := js "Hi there!"; sender := bot;
      isStreaming := Some false |}].

(** A chat surface with a draft typed in. *)
Definition draftState (msgs : list Message) (draft : JsString) (busy : bool)
    : State :=
  {| messages := msgs; inputValue := draft; isLoading := busy;
     apiKey := js "k"; apiKeyInput := js "k"; isApiKeySet := true;
     genAIRef := Some {| client_apiKey := js "k" |} |}.

(** The key form with a key typed in. *)
Definition keyFormState (typed : JsString) : State :=
  setApiKeyInput typed initialState.

Definition helloFragments : list JsString := [js "Hi"; js " there"; js "!"].

(** The scenario of the specification up to the request. *)
Definition helloSubmitted : list Event :=
  [ApiKeyInputChange (js "k"); ApiKeySubmit; InputChange (js "Hello");
   Submit 5 5].

Definition helloEvents : list Event :=
  helloSubmitted ++
  [StreamChunk 0 (js "Hi"); StreamChunk 0 (js " there");
   StreamChunk 0 (js "!"); StreamEnd 0].

(** The scenario one fragment into the answer. *)
Definition helloStreaming : list Event :=
  helloSubmitted ++ [StreamChunk 0 (js "Hi")].

(** The world some events lead to with an SDK that accepts every key. *)
Definition worldAfter (events : list Event) : World :=
  default initialWorld (run sdkAccepts initialWorld events).

(** ** The rendered tree

    What [MyChatBot] returns, as far as it depends on the state: the key
    form while [!isApiKeySet], the chat surface afterwards, with one
    bubble per message. *)

(** [styles.userMessage] or [styles.botMessage], spread over
    [styles.message]. *)
Inductive BubbleStyle : Type := userMessageStyle | botMessageStyle.

Record Bubble : Type := mkBubble {
  key : JsString;
  style : BubbleStyle;
  shown : JsString;
  cursor : bool
}.

Inductive View : Type :=
| ApiKeyForm (value : JsString)
| ChatSurface (bubbles : list Bubble) (value : JsString) (disabled : bool).

Definition renderMessage (message : Message) : Bubble :=
  {| key := id message;
     style := match sender message with
              | user => userMessageStyle
              | bot => botMessageStyle
              end;
     shown := text message;
     cursor := streamingNow message |}.

Definition render (s : State) : View :=
  if negb (isApiKeySet s) then ApiKeyForm (apiKeyInput s)
  else ChatSurface (renderMessage <$> messages s) (inputValue s) (isLoading s).

(** ** Vocabulary of the further properties *)

Definition isUser (msg : Message) : bool :=
  match sender msg with user => true | bot => false end.

(** What the user has said, in order. *)
Definition userTexts (msgs : list Message) : list JsString :=
  text <$> List.filter isUser msgs.

(** The conversation turns [handleSubmit] sends for a draft. *)
Definition userTurn (draft : JsString) : list Content :=
  [{| role := js "user"; parts := [draft] |}].

(** The user message [handleSubmit] builds. *)
Definition userMessageOf (now1 : Z) (draft : JsString) : Message :=
  {| id := js "user-" ++ toString now1; text := draft; sender := user;
     isStreaming := None |}.

(** The readings of [Date.now()] the submits of some events carry. *)
Definition userClocks (events : list Event) : list Z :=
  omap (fun e => match e with Submit now1 _ => Some now1 | _ => None end)
       events.

Definition botClocks (events : list Event) : list Z :=
  omap (fun e => match e with Submit _ now2 => Some now2 | _ => None end)
       events.

(** What the chat keeps true besides [sessionInv]: the key form is left
    only with a client built from the stored key; the transcript is the
    welcome message followed by pairs of a user message and an answer;
    the requests sent are the user messages; a suspended call displays
    its accumulator in the last message. *)
Definition chatInv (ctor : JsString -> option GoogleGenerativeAI)
    (w : World) : Prop :=
  (if isApiKeySet (ui w)
   then exists g, genAIRef (ui w) = Some g /\ ctor (apiKey (ui w)) = Some g
   else messages (ui w) = [welcomeMessage] /\ pending w = [] /\
        inputValue (ui w) = [] /\ isLoading (ui w) = false /\
        genAIRef (ui w) = None)
  /\ messages (ui w) !! 0 = Some welcomeMessage
  /\ (exists n,
        sender <$> messages (ui w) = bot :: concat (replicate n [user; bot]))
  /\ Forall (fun msg => sender msg = user ->
                        exists now, id msg = js "user-" ++ toString now)
            (messages (ui w))
  /\ contents <$> requests (log w) = userTurn <$> userTexts (messages (ui w))
  /\ Forall (fun t => exists now msg,
                botMessageId t = js "bot-" ++ toString now /\
                last (messages (ui w)) = Some msg /\
                id msg = botMessageId t /\ text msg = fullText t /\
                isStreaming msg = Some true /\ sender msg = bot)
            (pending w).

(** The identifiers of a transcript. *)
Definition ids (msgs : list Message) : list JsString := id <$> msgs.

(** Identifiers that no submit with one of these clock readings would
    generate. *)
Definition freshFor (nows1 nows2 : list Z) (l : list JsString) : Prop :=
  forall x, x ∈ l ->
    (forall now, now ∈ nows1 -> x <> js "user-" ++ toString now) /\
    (forall now, now ∈ nows2 -> x <> js "bot-" ++ toString now).

(** The number of cursors a view shows. *)
Definition cursors (bubbles : list Bubble) : nat :=
  length (List.filter cursor bubbles).

(** The world some events lead to. *)
Definition worldAfterWith (ctor : JsString -> option GoogleGenerativeAI)
    (events : list Event) : World :=
  default initialWorld (run ctor initialWorld events).

(** The scenario with the draft typed and not yet sent. *)
Definition helloDrafted : list Event :=
  [ApiKeyInputChange (js "k"); ApiKeySubmit; InputChange (js "Hello")].

(** A key is typed and submitted. *)
Definition keySubmitted (typed : JsString) : list Event :=
  [ApiKeyInputChange typed; ApiKeySubmit].

(** An SDK that rejects one key. *)
Definition sdkPicky (key : JsString) : option GoogleGenerativeAI :=
  if bool_decide (key = js "bad") then None
  else Some {| client_apiKey := key |}.

(** ** Queued updates

    [setMessages(updater)] does not run [updater]: React queues it and
    runs the queue when it next renders (the first of a batch possibly
    when it is queued; the later ones of the batch then write the text
    again).  The updater of the loop closes over the variable
    [fullText], not over its value, so it writes what the variable holds
    when the updater runs. *)












(** ** [trim] *)

Lemma trimStart_nil_iff (s : JsString) : trimStart s = [] <-> blank s.
Proof.
  unfold blank. induction s as [|c s IH]; simpl.
  - split; [constructor | reflexivity].
  - destruct (isWhiteSpace c) eqn:Hc.
    + rewrite IH. split.
      * intros H. by constructor.
      * intros H. by inversion H.
    + split; [discriminate |].
      intros H. inversion H; congruence.
Qed.

(** What [trimStart] leaves starts with a character that is no white
    space. *)
Lemma trimStart_blank_nil (s : JsString) : blank (trimStart s) -> trimStart s = [].
Proof.
  unfold blank. induction s as [|c s IH]; simpl; [done |].
  destruct (isWhiteSpace c) eqn:Hc; [exact IH |].
  intros H. inversion H; congruence.
Qed.

Lemma blank_reverse (s : JsString) : blank (reverse s) <-> blank s.
Proof. apply Forall_reverse. Qed.

Lemma trim_nil_iff (s : JsString) : trim s = [] <-> blank s.
Proof.
  unfold trim, trimEnd. split.
  - intros H. apply trimStart_nil_iff, trimStart_blank_nil.
    apply blank_reverse, trimStart_nil_iff.
    apply (f_equal reverse) in H. by rewrite reverse_involutive in H.
  - intros H. apply trimStart_nil_iff in H. by rewrite H.
Qed.

Lemma truthy_trim_false (s : JsString) : truthy (trim s) = false <-> blank s.
Proof.
  rewrite <- trim_nil_iff. destruct (trim s); simpl; split; congruence.
Qed.

(** ** The [map] updates *)

Lemma updateWhere_length b f msgs : length (updateWhere b f msgs) = length msgs.
Proof. unfold updateWhere. by rewrite length_fmap. Qed.

Lemma updateWhere_lookup b f msgs i :
  updateWhere b f msgs !! i =
  (fun msg => if bool_decide (id msg = b) then f msg else msg) <$> msgs !! i.
Proof. unfold updateWhere. by rewrite list_lookup_fmap. Qed.

Lemma updateWhere_lookup_hit b f msgs i msg :
  msgs !! i = Some msg -> id msg = b -> updateWhere b f msgs !! i = Some (f msg).
Proof.
  intros Hi Hb. rewrite updateWhere_lookup, Hi. simpl.
  by rewrite bool_decide_eq_true_2.
Qed.

Lemma updateWhere_lookup_miss b f msgs i msg :
  msgs !! i = Some msg -> id msg <> b -> updateWhere b f msgs !! i = Some msg.
Proof.
  intros Hi Hb. rewrite updateWhere_lookup, Hi. simpl.
  by rewrite bool_decide_eq_false_2.
Qed.

Lemma updateWhere_skeleton b f msgs :
  (forall msg, id (f msg) = id msg /\ sender (f msg) = sender msg) ->
  skeleton (updateWhere b f msgs) = skeleton msgs.
Proof.
  intros Hf. unfold skeleton, updateWhere. rewrite <- list_fmap_compose.
  apply list_fmap_ext. intros _ msg _. simpl.
  case_bool_decide; [| done]. by destruct (Hf msg) as [-> ->].
Qed.

Lemma withText_frame x msg :
  id (withText x msg) = id msg /\ sender (withText x msg) = sender msg.
Proof. done. Qed.

Lemma withDone_frame msg :
  id (withDone msg) = id msg /\ sender (withDone msg) = sender msg.
Proof. done. Qed.

Lemma withError_frame msg :
  id (withError msg) = id msg /\ sender (withError msg) = sender msg.
Proof. done. Qed.

(** An update that keeps the flag keeps the count. *)
Lemma streamingCount_updateWhere_keep b f msgs :
  (forall msg, streamingNow (f msg) = streamingNow msg) ->
  streamingCount (updateWhere b f msgs) = streamingCount msgs.
Proof.
  intros Hf. unfold streamingCount, updateWhere.
  induction msgs as [|msg msgs IH]; [done |].
  rewrite fmap_cons. simpl.
  assert (streamingNow (if bool_decide (id msg = b) then f msg else msg)
          = streamingNow msg) as ->.
  { case_bool_decide; [apply Hf | done]. }
  destruct (streamingNow msg); simpl; by rewrite IH.
Qed.

(** An update that clears the flag of the only messages that can have it
    leaves none. *)
Lemma streamingCount_updateWhere_clear b f msgs :
  (forall msg, streamingNow (f msg) = false) ->
  (forall msg, msg ∈ msgs -> streamingNow msg = true -> id msg = b) ->
  streamingCount (updateWhere b f msgs) = 0.
Proof.
  intros Hf. unfold streamingCount, updateWhere.
  induction msgs as [|msg msgs IH]; intros Hall; [done |].
  rewrite fmap_cons. simpl.
  assert (streamingNow (if bool_decide (id msg = b) then f msg else msg)
          = false) as ->.
  { case_bool_decide as Hb; [apply Hf |].
    destruct (streamingNow msg) eqn:Hs; [| done].
    exfalso. apply Hb, Hall; [left | done]. }
  apply IH. intros m Hm. apply Hall. by right.
Qed.

Lemma streamingCount_app l1 l2 :
  streamingCount (l1 ++ l2) = streamingCount l1 + streamingCount l2.
Proof. unfold streamingCount. by rewrite List.filter_app, length_app. Qed.

Lemma streamingCount_0_none msgs msg :
  streamingCount msgs = 0 -> msg ∈ msgs -> streamingNow msg = false.
Proof.
  unfold streamingCount. induction msgs as [|m msgs IH]; intros H0 Hin.
  - by apply elem_of_nil in Hin.
  - simpl in H0. destruct (streamingNow m) eqn:Hm; [discriminate |].
    apply elem_of_cons in Hin as [-> | Hin]; [done | by apply IH].
Qed.

(** ** The streaming loop *)

Section Streaming.

Variable new_GoogleGenerativeAI : JsString -> option GoogleGenerativeAI.


Lemma withText_text msg : withText (text msg) msg = msg.
Proof. by destruct msg. Qed.

Lemma consume_task chunks t s :
  (consume chunks t s).1 =
  {| botMessageId := botMessageId t;
     fullText := fullText t ++ concat chunks |}.
Proof.
  revert t s. induction chunks as [|c chunks IH]; intros t s; simpl.
  - rewrite app_nil_r. by destruct t.
  - rewrite IH. simpl. by rewrite <- app_assoc.
Qed.

(** The loop touches the transcript only. *)
Lemma consume_frame chunks t s :
  let s' := (consume chunks t s).2 in
  inputValue s' = inputValue s /\ isLoading s' = isLoading s /\
  apiKey s' = apiKey s /\ apiKeyInput s' = apiKeyInput s /\
  isApiKeySet s' = isApiKeySet s /\ genAIRef s' = genAIRef s /\
  length (messages s') = length (messages s).
Proof.
  revert t s. induction chunks as [|c chunks IH]; intros t s; simpl; [done |].
  destruct (IH {| botMessageId := botMessageId t;
                  fullText := fullText t ++ c |}
               (setMessages (applyChunk (botMessageId t) (fullText t ++ c)) s))
    as (-> & -> & -> & -> & -> & -> & ->).
  simpl. unfold applyChunk. by rewrite updateWhere_length.
Qed.

(** The target message shows the accumulator. *)
Lemma consume_lookup chunks t s i msg :
  messages s !! i = Some msg ->
  id msg = botMessageId t ->
  text msg = fullText t ->
  messages (consume chunks t s).2 !! i =
  Some (withText (fullText t ++ concat chunks) msg).
Proof.
  revert t s msg. induction chunks as [|c chunks IH]; intros t s msg Hi Hid Htxt.
  - simpl. rewrite app_nil_r, <- Htxt, withText_text. exact Hi.
  - simpl. rewrite (IH _ _ (withText (fullText t ++ c) msg)); simpl.
    + by rewrite <- app_assoc.
    + unfold applyChunk. by apply updateWhere_lookup_hit.
    + done.
    + done.
Qed.

(** What an accepted call with a client at hand does before it
    suspends. *)
Lemma handleSubmit_accepted now1 now2 s g :
  truthy (trim (inputValue s)) = true ->
  ensureClient new_GoogleGenerativeAI s = Some g ->
  handleSubmit new_GoogleGenerativeAI now1 now2 s =
  (setGenAIRef g
     (setIsLoading true
        (setInputValue []
           (setMessages (fun prevMessages =>
              prevMessages ++
              [ {| id := js "user-" ++ toString now1; text := inputValue s;
                   sender := user; isStreaming := None |};
                placeholder now2 [] true ]) s))),
   [GenerateContentStream
      {| req_client := g; req_params := chatParams;
         contents := [{| role := js "user"; parts := [inputValue s] |}] |}],
   Some {| botMessageId := js "bot-" ++ toString now2; fullText := [] |}).
Proof.
  intros Ht Hg. unfold handleSubmit. rewrite Ht. simpl.
  unfold ensureClient in *. simpl. by rewrite Hg.
Qed.

(** What it does when the constructor throws. *)
Lemma handleSubmit_thrown now1 now2 s :
  truthy (trim (inputValue s)) = true ->
  ensureClient new_GoogleGenerativeAI s = None ->
  handleSubmit new_GoogleGenerativeAI now1 now2 s =
  (setIsLoading false
     (setMessages (writeError (js "bot-" ++ toString now2))
        (setIsLoading true
           (setInputValue []
              (setMessages (fun prevMessages =>
                 prevMessages ++
                 [ {| id := js "user-" ++ toString now1;
                      text := inputValue s;
                      sender := user; isStreaming := None |};
                   placeholder now2 [] true ]) s)))),
   [ConsoleError (js "Error generating content:")],
   None).
Proof.
  intros Ht Hg. unfold handleSubmit. rewrite Ht. simpl.
  unfold ensureClient in *. simpl. by rewrite Hg.
Qed.

Lemma handleSubmit_blank now1 now2 s :
  truthy (trim (inputValue s)) = false ->
  handleSubmit new_GoogleGenerativeAI now1 now2 s = (s, [], None).
Proof. intros Ht. unfold handleSubmit. by rewrite Ht. Qed.

(** The placeholder sits where [placeholderIndex] says. *)
Lemma placeholder_lookup (msgs : list Message) (u b : Message) :
  (msgs ++ [u; b]) !! S (length msgs) = Some b.
Proof.
  rewrite lookup_app_r by lia.
  by replace (S (length msgs) - length msgs) with 1 by lia.
Qed.

(** The suspended call after any fragments: the placeholder shows their
    concatenation and still streams. *)
Lemma suspended_placeholder now1 now2 chunks s :
  truthy (trim (inputValue s)) = true ->
  is_Some (ensureClient new_GoogleGenerativeAI s) ->
  messages (handleSubmitSuspended new_GoogleGenerativeAI now1 now2 chunks s)
    !! placeholderIndex s =
  Some (placeholder now2 (concat chunks) true).
Proof.
  intros Ht [g Hg]. unfold handleSubmitSuspended.
  rewrite (handleSubmit_accepted _ _ _ g Ht Hg).
  erewrite consume_lookup; [| apply placeholder_lookup | done | done].
  done.
Qed.

End Streaming.

(** ** Streamed answers *)

(** C1: when an accepted [handleSubmit] call has a client and the stream
    yields the fragments [chunks] and ends, the placeholder message ends
    with the concatenation of the fragments in arrival order as its text
    and with [isStreaming = false]; while the call is suspended in the
    loop, after any number [k] of the fragments, its flag is still
    true. *)
Theorem stream_success_concatenates
    (ctor : JsString -> option GoogleGenerativeAI) (now1 now2 : Z)
    (chunks : list JsString) (s : State) :
  truthy (trim (inputValue s)) = true ->
  is_Some (ensureClient ctor s) ->
  messages (handleSubmitAsync ctor now1 now2 chunks Completed s).1
    !! placeholderIndex s
  = Some (placeholder now2 (concat chunks) false)
  /\ forall k, k <= length chunks ->
       messages (handleSubmitSuspended ctor now1 now2 (take k chunks) s)
         !! placeholderIndex s
       = Some (placeholder now2 (concat (take k chunks)) true).
Proof.
  intros Ht Hc. split.
  - destruct Hc as [g Hg]. unfold handleSubmitAsync.
    rewrite (handleSubmit_accepted _ _ _ _ g Ht Hg).
    match goal with |- context [consume chunks ?t ?s1] =>
      pose proof (consume_task chunks t s1) as Htask;
      pose proof (consume_lookup chunks t s1 (placeholderIndex s)
                    (placeholder now2 [] true)
                    (placeholder_lookup _ _ _) eq_refl eq_refl) as Hmsg;
      destruct (consume chunks t s1) as [t' s2]
    end.
    simpl in *. subst t'. simpl. unfold markDone.
    by erewrite updateWhere_lookup_hit; [| exact Hmsg |].
  - intros k _. by apply suspended_placeholder.
Qed.

Lemma stream_success_concatenates_witness :
  truthy (trim (inputValue (draftState [welcomeMessage] (js "Hello") false)))
    = true /\
  is_Some (ensureClient sdkAccepts
             (draftState [welcomeMessage] (js "Hello") false)) /\
  messages (handleSubmitAsync sdkAccepts 5 5 helloFragments Completed
              (draftState [welcomeMessage] (js "Hello") false)).1 !! 2
  = Some (placeholder 5 (js "Hi there!") false).
Proof.
  split; [reflexivity |]. split; [by eexists |].
  apply (stream_success_concatenates sdkAccepts 5 5 helloFragments
           (draftState [welcomeMessage] (js "Hello") false));
    [reflexivity | by eexists].
Defined.

(** C2: when the stream of an accepted [handleSubmit] call faults after
    any fragments [chunks] have been applied (none included, and also
    when building the client throws before any request), the placeholder
    message ends with the fixed error string as its whole text and with
    [isStreaming = false], and [isLoading] is false again. *)
Theorem stream_fault_overwrites
    (ctor : JsString -> option GoogleGenerativeAI) (now1 now2 : Z)
    (chunks : list JsString) (s : State) :
  truthy (trim (inputValue s)) = true ->
  messages (handleSubmitAsync ctor now1 now2 chunks Faulted s).1
    !! placeholderIndex s
  = Some (placeholder now2 errorText false)
  /\ isLoading (handleSubmitAsync ctor now1 now2 chunks Faulted s).1 = false.
Proof.
  intros Ht. unfold handleSubmitAsync.
  destruct (ensureClient ctor s) as [g|] eqn:Hg.
  - rewrite (handleSubmit_accepted _ _ _ _ g Ht Hg).
    match goal with |- context [consume chunks ?t ?s1] =>
      pose proof (consume_task chunks t s1) as Htask;
      pose proof (consume_lookup chunks t s1 (placeholderIndex s)
                    (placeholder now2 [] true)
                    (placeholder_lookup _ _ _) eq_refl eq_refl) as Hmsg;
      destruct (consume chunks t s1) as [t' s2]
    end.
    simpl in *. subst t'. simpl. split; [| done]. unfold writeError.
    by erewrite updateWhere_lookup_hit; [| exact Hmsg |].
  - rewrite (handleSubmit_thrown _ _ _ _ Ht Hg). simpl. split; [| done].
    unfold writeError.
    by erewrite updateWhere_lookup_hit; [| apply placeholder_lookup |].
Qed.

Lemma stream_fault_overwrites_witness :
  truthy (trim (inputValue (draftState [welcomeMessage] (js "Hello") false)))
    = true /\
  messages (handleSubmitAsync sdkAccepts 5 5 [js "Hi"; js " the"] Faulted
              (draftState [welcomeMessage] (js "Hello") false)).1 !! 2
  = Some (placeholder 5 errorText false).
Proof.
  split; [reflexivity |].
  apply (stream_fault_overwrites sdkAccepts 5 5 [js "Hi"; js " the"]
           (draftState [welcomeMessage] (js "Hello") false)).
  reflexivity.
Defined.

(** ** Submissions that are turned away *)

(** C5: when the draft is empty or white space only, [handleSubmit]
    returns the state it was given, with the transcript, the draft and
    [isLoading] as they were, causes no effect and suspends nothing,
    whatever the stream would have done. *)
Theorem blank_submit_is_noop
    (ctor : JsString -> option GoogleGenerativeAI) (now1 now2 : Z)
    (chunks : list JsString) (outcome : StreamOutcome) (s : State) :
  blank (inputValue s) ->
  handleSubmit ctor now1 now2 s = (s, [], None)
  /\ handleSubmitAsync ctor now1 now2 chunks outcome s = (s, []).
Proof.
  intros Hb. apply truthy_trim_false in Hb.
  unfold handleSubmitAsync. by rewrite (handleSubmit_blank _ _ _ _ Hb).
Qed.

Lemma blank_submit_is_noop_witness :
  blank (inputValue (draftState helloExchange [32; 9; 160]%N false)) /\
  handleSubmit sdkAccepts 6 6 (draftState helloExchange [32; 9; 160]%N false)
  = (draftState helloExchange [32; 9; 160]%N false, [], None).
Proof.
  split; [by repeat constructor |].
  apply (blank_submit_is_noop sdkAccepts 6 6 [] Completed
           (draftState helloExchange [32; 9; 160]%N false)).
  by repeat constructor.
Defined.

(** ** The session between events *)

Section Session.

Variable new_GoogleGenerativeAI : JsString -> option GoogleGenerativeAI.


Lemma sessionInv_initial : sessionInv initialWorld.
Proof. by split. Qed.

(** A draft that is not blank is typed while nothing is loading, and then
    no call is suspended. *)
Lemma sessionInv_draft w :
  sessionInv w -> truthy (trim (inputValue (ui w))) = true ->
  isLoading (ui w) = false /\ pending w = [] /\
  streamingCount (messages (ui w)) = 0.
Proof.
  intros [Hbusy Hp] Ht.
  assert (isLoading (ui w) = false) as Hl.
  { destruct (isLoading (ui w)); [| done].
    destruct Hbusy as [Hin _]; [done |]. by rewrite Hin in Ht. }
  destruct (pending w) as [|t [|t' p]]; [| | done].
  - by destruct Hp.
  - destruct Hp as [Hp _]. congruence.
Qed.

Lemma step_sessionInv w e w' :
  sessionInv w -> step new_GoogleGenerativeAI w e = Some w' -> sessionInv w'.
Proof.
  intros Hinv Hstep. destruct e; simpl in Hstep.
  - (* typing into the key form *)
    destruct (isApiKeySet (ui w)); [done |]. by simplify_eq.
  - (* handleApiKeySubmit *)
    destruct (isApiKeySet (ui w)) eqn:Hset; [done |].
    destruct (truthy (apiKeyInput (ui w))); [| done].
    cbn [orb negb] in Hstep. unfold handleApiKeySubmit in Hstep.
    destruct Hinv as [Hbusy Hp].
    destruct (new_GoogleGenerativeAI (apiKeyInput (ui w)));
      simplify_eq; (split; [| exact Hp]); simpl; intros Hl;
      destruct (Hbusy Hl); [done | congruence].
  - (* handleInputChange *)
    destruct (isApiKeySet (ui w) && negb (isLoading (ui w))) eqn:Hen; [| done].
    apply andb_true_iff in Hen as [_ Hl]. apply negb_true_iff in Hl.
    simplify_eq. destruct Hinv as [_ Hp]. split; simpl; [congruence |].
    exact Hp.
  - (* handleSubmit *)
    destruct (isApiKeySet (ui w)) eqn:Hset; [| done].
    destruct (truthy (trim (inputValue (ui w)))) eqn:Ht.
    + destruct (sessionInv_draft _ Hinv Ht) as (Hl & Hnil & Hcount).
      destruct (ensureClient new_GoogleGenerativeAI (ui w)) as [g|] eqn:Hg.
      * rewrite (handleSubmit_accepted _ _ _ _ g Ht Hg) in Hstep.
        simplify_eq. rewrite Hnil. split; simpl; [done |].
        split; [done |]. split.
        -- rewrite streamingCount_app, Hcount. by cbv.
        -- intros msg Hin Hs. apply elem_of_app in Hin as [Hin | Hin].
           ++ by rewrite (streamingCount_0_none _ _ Hcount Hin) in Hs.
           ++ apply elem_of_cons in Hin as [-> | Hin]; [done |].
              by apply list_elem_of_singleton in Hin as ->.
      * rewrite (handleSubmit_thrown _ _ _ _ Ht Hg) in Hstep.
        simplify_eq. rewrite Hnil. split; simpl; [done |].
        split; [done |]. unfold writeError.
        apply streamingCount_updateWhere_clear; [done |].
        intros msg Hin Hs. apply elem_of_app in Hin as [Hin | Hin].
        -- by rewrite (streamingCount_0_none _ _ Hcount Hin) in Hs.
        -- apply elem_of_cons in Hin as [-> | Hin]; [done |].
           by apply list_elem_of_singleton in Hin as ->.
    + rewrite (handleSubmit_blank _ _ _ _ Ht) in Hstep. simplify_eq.
      destruct Hinv as [Hbusy Hp]. split; simpl; [done |].
      by rewrite app_nil_r.
  - (* a fragment *)
    destruct Hinv as [Hbusy Hp].
    destruct (pending w) as [|t [|t' p]] eqn:Hpend; [done | | done].
    destruct i as [|i]; [| done]. simpl in Hstep. simplify_eq.
    destruct Hp as (Hl & Hcount & Hid). split; simpl; [done |].
    split; [done |]. unfold applyChunk. split.
    + by rewrite streamingCount_updateWhere_keep.
    + intros msg Hin Hs. unfold updateWhere in Hin.
      apply list_elem_of_fmap in Hin as (m & -> & Hin).
      case_bool_decide as Hb; [done |]. by apply Hid.
  - (* the end of the stream *)
    destruct Hinv as [Hbusy Hp].
    destruct (pending w) as [|t [|t' p]] eqn:Hpend; [done | | done].
    destruct i as [|i]; [| done]. simpl in Hstep. simplify_eq.
    destruct Hp as (Hl & Hcount & Hid). split; simpl; [done |].
    split; [done |]. unfold markDone.
    by apply streamingCount_updateWhere_clear.
  - (* a fault *)
    destruct Hinv as [Hbusy Hp].
    destruct (pending w) as [|t [|t' p]] eqn:Hpend; [done | | done].
    destruct i as [|i]; [| done]. simpl in Hstep. simplify_eq.
    destruct Hp as (Hl & Hcount & Hid). split; simpl; [done |].
    split; [done |]. unfold writeError.
    by apply streamingCount_updateWhere_clear.
Qed.

Lemma run_sessionInv events w w' :
  sessionInv w -> run new_GoogleGenerativeAI w events = Some w' -> sessionInv w'.
Proof.
  revert w. induction events as [|e events IH]; intros w Hinv Hrun;
    simpl in Hrun.
  - by simplify_eq.
  - destruct (step new_GoogleGenerativeAI w e) as [w1|] eqn:Hstep; [| done]. simpl in Hrun.
    eapply IH; [| exact Hrun]. by eapply step_sessionInv.
Qed.

Lemma reachable_sessionInv w : reachable new_GoogleGenerativeAI w -> sessionInv w.
Proof.
  intros [events Hrun]. eapply run_sessionInv; [| exact Hrun].
  apply sessionInv_initial.
Qed.

End Session.

(** C7: in every world the event loop reaches from the initial one, at
    most one message of the transcript has [isStreaming = true]; the
    worlds reached are those after any sequence of key-form events,
    draft edits, submits, fragments, stream ends and stream faults. *)
Theorem at_most_one_streaming
    (ctor : JsString -> option GoogleGenerativeAI) (w : World) :
  reachable ctor w -> streamingCount (messages (ui w)) <= 1.
Proof.
  intros Hr. apply reachable_sessionInv in Hr as [_ Hp].
  destruct (pending w) as [|t [|t' p]]; [| | done].
  - destruct Hp as [_ ->]. lia.
  - by destruct Hp as (_ & Hc & _).
Qed.

Lemma at_most_one_streaming_witness :
  reachable sdkAccepts (worldAfter helloStreaming) /\
  streamingCount (messages (ui (worldAfter helloStreaming))) <= 1.
Proof.
  split; [by exists helloStreaming |].
  apply (at_most_one_streaming sdkAccepts (worldAfter helloStreaming)).
  by exists helloStreaming.
Defined.

(** [handleSubmit] has no test of [isLoading] of its own: in a state no
    sequence of events leads to, loading with a draft typed in, it
    appends the two messages and issues a request. *)
Lemma busy_submit_appends :
  isLoading (draftState helloExchange (js "hi") true) = true /\
  length (messages
            (handleSubmit sdkAccepts 7 7
               (draftState helloExchange (js "hi") true)).1.1)
  = length (messages (draftState helloExchange (js "hi") true)) + 2 /\
  length (requests
            (handleSubmit sdkAccepts 7 7
               (draftState helloExchange (js "hi") true)).1.2) = 1.
Proof. by vm_compute. Qed.

(** C3: in every state in which [isLoading] is true, a submit is a
    no-op: [handleSubmit] returns the state it was given, so the
    transcript keeps its length and no message is appended, it causes no
    effect, so no second request is issued, and it suspends nothing; the
    world after the event is the world before it.  The states are those
    the event loop reaches: there the draft can only be edited while
    nothing is loading, and it is empty whenever [isLoading] is true. *)
Theorem busy_submit_noop_when_reachable
    (ctor : JsString -> option GoogleGenerativeAI) (w : World)
    (now1 now2 : Z) :
  reachable ctor w ->
  isLoading (ui w) = true ->
  handleSubmit ctor now1 now2 (ui w) = (ui w, [], None)
  /\ step ctor w (Submit now1 now2) = Some w.
Proof.
  intros Hr Hl. apply reachable_sessionInv in Hr as [Hbusy _].
  destruct (Hbusy Hl) as [Hin Hset].
  assert (handleSubmit ctor now1 now2 (ui w) = (ui w, [], None)) as Hs.
  { apply handleSubmit_blank. by rewrite Hin. }
  split; [exact Hs |]. simpl. rewrite Hset, Hs. simpl.
  rewrite !app_nil_r. by destruct w.
Qed.

Lemma busy_submit_noop_when_reachable_witness :
  reachable sdkAccepts (worldAfter helloStreaming) /\
  isLoading (ui (worldAfter helloStreaming)) = true /\
  step sdkAccepts (worldAfter helloStreaming) (Submit 8 8)
  = Some (worldAfter helloStreaming).
Proof.
  split; [by exists helloStreaming |]. split; [reflexivity |].
  apply (busy_submit_noop_when_reachable sdkAccepts
           (worldAfter helloStreaming) 8 8);
    [by exists helloStreaming | reflexivity].
Defined.

(** ** The key form *)

(** C4, as the code has it: a key whose client cannot be built is stored
    in [apiKey] all the same. *)
Lemma failed_key_is_stored :
  sdkThrows (apiKeyInput (keyFormState (js "bad"))) = None /\
  apiKey (keyFormState (js "bad")) = [] /\
  apiKey (handleApiKeySubmit sdkThrows (keyFormState (js "bad"))).1 = js "bad".
Proof. by vm_compute. Qed.

(** C4, amended: when building the client throws, [handleApiKeySubmit]
    stores the submitted key in [apiKey] and changes nothing else:
    [isApiKeySet], the client handle, the transcript, the draft,
    [isLoading] and the key field are as before; the failure is logged
    and reported with an alert. *)
Theorem failed_key_submit_frame
    (ctor : JsString -> option GoogleGenerativeAI) (s : State) :
  ctor (apiKeyInput s) = None ->
  apiKey (handleApiKeySubmit ctor s).1 = apiKeyInput s
  /\ isApiKeySet (handleApiKeySubmit ctor s).1 = isApiKeySet s
  /\ genAIRef (handleApiKeySubmit ctor s).1 = genAIRef s
  /\ messages (handleApiKeySubmit ctor s).1 = messages s
  /\ inputValue (handleApiKeySubmit ctor s).1 = inputValue s
  /\ isLoading (handleApiKeySubmit ctor s).1 = isLoading s
  /\ apiKeyInput (handleApiKeySubmit ctor s).1 = apiKeyInput s
  /\ (handleApiKeySubmit ctor s).2
     = [ConsoleError (js "Error initializing Gemini:"); Alert alertText].
Proof. intros Hc. unfold handleApiKeySubmit. by rewrite Hc. Qed.

Lemma failed_key_submit_frame_witness :
  sdkThrows (apiKeyInput (keyFormState (js "bad"))) = None /\
  isApiKeySet (handleApiKeySubmit sdkThrows (keyFormState (js "bad"))).1
  = false.
Proof.
  split; [reflexivity |].
  apply (failed_key_submit_frame sdkThrows (keyFormState (js "bad"))).
  reflexivity.
Defined.

(** ** The transcript as a sequence *)

Lemma skeleton_app l1 l2 : skeleton (l1 ++ l2) = skeleton l1 ++ skeleton l2.
Proof. unfold skeleton. apply fmap_app. Qed.

Lemma handleSubmit_skeleton ctor now1 now2 s :
  skeleton (messages s)
    `prefix_of` skeleton (messages (handleSubmit ctor now1 now2 s).1.1).
Proof.
  destruct (truthy (trim (inputValue s))) eqn:Ht.
  - destruct (ensureClient ctor s) as [g|] eqn:Hg.
    + rewrite (handleSubmit_accepted _ _ _ _ g Ht Hg). simpl.
      rewrite skeleton_app. by apply prefix_app_r.
    + rewrite (handleSubmit_thrown _ _ _ _ Ht Hg). simpl.
      unfold writeError.
      rewrite (updateWhere_skeleton _ _ _ withError_frame), skeleton_app.
      by apply prefix_app_r.
  - by rewrite (handleSubmit_blank _ _ _ _ Ht).
Qed.

Lemma step_skeleton ctor w e w' :
  step ctor w e = Some w' ->
  skeleton (messages (ui w)) `prefix_of` skeleton (messages (ui w')).
Proof.
  intros Hstep. destruct e; simpl in Hstep.
  - destruct (isApiKeySet (ui w)); by simplify_eq.
  - destruct (isApiKeySet (ui w)); [done |]. destruct (truthy (apiKeyInput (ui w))); [| done]. cbn [orb negb] in Hstep. unfold handleApiKeySubmit in Hstep.
    destruct (ctor (apiKeyInput (ui w))); by simplify_eq.
  - destruct (isApiKeySet (ui w) && negb (isLoading (ui w))); by simplify_eq.
  - destruct (isApiKeySet (ui w)); [| done].
    pose proof (handleSubmit_skeleton ctor now1 now2 (ui w)) as Hpre.
    destruct (handleSubmit ctor now1 now2 (ui w)) as [[s' eff] t].
    by simplify_eq.
  - destruct (pending w !! i) as [t|]; [| done]. simpl in Hstep. simplify_eq.
    simpl. unfold applyChunk.
    by rewrite (updateWhere_skeleton _ _ _ (withText_frame _)).
  - destruct (pending w !! i) as [t|]; [| done]. simpl in Hstep. simplify_eq.
    simpl. unfold markDone.
    by rewrite (updateWhere_skeleton _ _ _ withDone_frame).
  - destruct (pending w !! i) as [t|]; [| done]. simpl in Hstep. simplify_eq.
    simpl. unfold writeError.
    by rewrite (updateWhere_skeleton _ _ _ withError_frame).
Qed.

(** C6: along any sequence of events, from any world, the sequence of
    identifiers and senders of the transcript before is a prefix of the
    one after: every message keeps its position, none is deleted, new
    ones come at the end only; the transcript never gets shorter. *)
Theorem transcript_append_only
    (ctor : JsString -> option GoogleGenerativeAI) (events : list Event)
    (w w' : World) :
  run ctor w events = Some w' ->
  skeleton (messages (ui w)) `prefix_of` skeleton (messages (ui w'))
  /\ length (messages (ui w)) <= length (messages (ui w')).
Proof.
  intros Hrun.
  assert (skeleton (messages (ui w))
            `prefix_of` skeleton (messages (ui w'))) as Hpre.
  { revert w Hrun. induction events as [|e events IH]; intros w Hrun;
      simpl in Hrun.
    - by simplify_eq.
    - destruct (step ctor w e) as [w1|] eqn:Hstep; [| done]. simpl in Hrun.
      etrans; [by eapply step_skeleton | by apply IH]. }
  split; [exact Hpre |].
  apply prefix_length in Hpre. unfold skeleton in Hpre.
  by rewrite !length_fmap in Hpre.
Qed.

Lemma transcript_append_only_witness :
  run sdkAccepts initialWorld helloEvents = Some (worldAfter helloEvents) /\
  skeleton (messages (ui initialWorld))
    `prefix_of` skeleton (messages (ui (worldAfter helloEvents))).
Proof.
  split; [reflexivity |].
  apply (transcript_append_only sdkAccepts helloEvents initialWorld
           (worldAfter helloEvents)).
  reflexivity.
Defined.

(** C10: each update of the streaming loop (a fragment applied, the
    stream marked complete, the error written) leaves every message whose
    identifier is not that of the placeholder of the call as it was, in
    its place; and the transcript keeps its length. *)
Theorem renderer_updates_frame
    (t : Task) (chunkText : JsString) (s : State) (i : nat) (msg : Message) :
  messages s !! i = Some msg ->
  id msg <> botMessageId t ->
  messages (onChunk chunkText t s).2 !! i = Some msg
  /\ messages (onStreamEnd t s) !! i = Some msg
  /\ messages (onStreamError t s).1 !! i = Some msg
  /\ length (messages (onChunk chunkText t s).2) = length (messages s)
  /\ length (messages (onStreamEnd t s)) = length (messages s)
  /\ length (messages (onStreamError t s).1) = length (messages s).
Proof.
  intros Hi Hne. simpl. unfold applyChunk, markDone, writeError.
  rewrite !updateWhere_length.
  by rewrite !(updateWhere_lookup_miss _ _ _ _ _ Hi Hne).
Qed.

Lemma renderer_updates_frame_witness :
  messages (draftState helloExchange [] true) !! 1
  = Some {| id := js "user-5"; text := js "Hello"; sender := user;
            isStreaming := None |} /\
  js "user-5" <> js "bot-5" /\
  messages (onStreamError {| botMessageId := js "bot-5"; fullText := [] |}
              (draftState helloExchange [] true)).1 !! 1
  = Some {| id := js "user-5"; text := js "Hello"; sender := user;
            isStreaming := None |}.
Proof.
  split; [reflexivity |]. split; [discriminate |].
  apply (renderer_updates_frame
           {| botMessageId := js "bot-5"; fullText := [] |} []
           (draftState helloExchange [] true) 1
           {| id := js "user-5"; text := js "Hello"; sender := user;
              isStreaming := None |});
    [reflexivity | discriminate].
Defined.

(** ** The request *)

(** C9, as the code has it: the request of a second exchange carries the
    new draft only; the earlier messages of the transcript are not among
    its turns. *)
Lemma request_omits_prior_turns :
  exists r,
    requests (handleSubmit sdkAccepts 9 9
                (draftState helloExchange (js "Again") false)).1.2 = [r]
    /\ ~ carriesContext
           (messages (draftState helloExchange (js "Again") false)) r.
Proof.
  eexists. split; [reflexivity |].
  intros Hall.
  destruct (Hall {| id := js "user-5"; text := js "Hello"; sender := user;
                    isStreaming := None |}) as (c & Hc & Hp).
  { simpl. unfold helloExchange. apply elem_of_cons. right. by left. }
  simpl in Hc. apply list_elem_of_singleton in Hc as ->.
  simpl in Hp. apply list_elem_of_singleton in Hp. discriminate.
Qed.

(** C9, amended: an accepted [handleSubmit] call with a client issues
    exactly one request; its conversation turns are the single turn of
    role [user] whose only part is the submitted draft, and its
    parameters are the fixed ones: model [gemini-1.5-pro], temperature
    0.7, top-k 40, top-p 0.95, at most 1024 output tokens. *)
Theorem request_carries_new_turn
    (ctor : JsString -> option GoogleGenerativeAI) (now1 now2 : Z)
    (s : State) (g : GoogleGenerativeAI) :
  truthy (trim (inputValue s)) = true ->
  ensureClient ctor s = Some g ->
  requests (handleSubmit ctor now1 now2 s).1.2 =
  [{| req_client := g;
      req_params :=
        {| model := js "gemini-1.5-pro";
           generationConfig :=
             {| temperature := Qmake 7 10; topK := 40%Z;
                topP := Qmake 95 100; maxOutputTokens := 1024%Z |} |};
      contents := [{| role := js "user"; parts := [inputValue s] |}] |}].
Proof.
  intros Ht Hg. by rewrite (handleSubmit_accepted _ _ _ _ g Ht Hg).
Qed.

Lemma request_carries_new_turn_witness :
  truthy (trim (inputValue (draftState helloExchange (js "Again") false)))
    = true /\
  ensureClient sdkAccepts (draftState helloExchange (js "Again") false)
    = Some {| client_apiKey := js "k" |} /\
  requests (handleSubmit sdkAccepts 9 9
              (draftState helloExchange (js "Again") false)).1.2
  = [{| req_client := {| client_apiKey := js "k" |};
        req_params := chatParams;
        contents := [{| role := js "user"; parts := [js "Again"] |}] |}].
Proof.
  split; [reflexivity |]. split; [reflexivity |].
  apply (request_carries_new_turn sdkAccepts 9 9
           (draftState helloExchange (js "Again") false)
           {| client_apiKey := js "k" |});
    reflexivity.
Defined.

(** ** The event loop and the whole call *)

Lemma run_app ctor w events1 events2 :
  run ctor w (events1 ++ events2) =
  run ctor w events1 ≫= fun w1 => run ctor w1 events2.
Proof.
  revert w. induction events1 as [|e events1 IH]; intros w; simpl; [done |].
  destruct (step ctor w e) as [w1|]; simpl; [apply IH | done].
Qed.

Lemma run_chunks ctor s t l chunks :
  run ctor {| ui := s; pending := [t]; log := l |}
    (StreamChunk 0 <$> chunks) =
  Some {| ui := (consume chunks t s).2;
          pending := [(consume chunks t s).1]; log := l |}.
Proof.
  revert s t. induction chunks as [|c chunks IH]; intros s t; simpl; [done |].
  apply IH.
Qed.

(** With no other call suspended, the events of one request drive the
    world to what [handleSubmitAsync] computes. *)
Lemma run_request ctor w now1 now2 chunks outcome :
  isApiKeySet (ui w) = true ->
  pending w = [] ->
  truthy (trim (inputValue (ui w))) = true ->
  is_Some (ensureClient ctor (ui w)) ->
  run ctor w
    (Submit now1 now2 :: (StreamChunk 0 <$> chunks) ++
     [match outcome with Completed => StreamEnd 0 | Faulted => StreamError 0 end])
  = Some {| ui := (handleSubmitAsync ctor now1 now2 chunks outcome (ui w)).1;
            pending := [];
            log := log w ++
                   (handleSubmitAsync ctor now1 now2 chunks outcome (ui w)).2 |}.
Proof.
  intros Hset Hp Ht [g Hg]. unfold handleSubmitAsync.
  cbn [run step]. rewrite Hset, (handleSubmit_accepted _ _ _ _ g Ht Hg), Hp.
  rewrite app_nil_l.
  match goal with |- context [option_list (Some ?t)] =>
    change (option_list (Some t)) with [t]
  end.
  cbn [mbind option_bind]. rewrite run_app, run_chunks.
  match goal with |- context [consume chunks ?t ?s1] =>
    destruct (consume chunks t s1) as [t' s2]
  end.
  destruct outcome; cbn [mbind option_bind run step fst snd pending ui log
                         lookup list_lookup onStreamError delete list_delete].
  - done.
  - by rewrite <- app_assoc.
Qed.

(** ** The scenario of the specification *)

(** [Hello], answered by the fragments [Hi], [ there] and [!]. *)
Example hello_scenario :
  messages (ui (worldAfter helloEvents)) = helloExchange.
Proof. reflexivity. Qed.

(** The event loop and [handleSubmitAsync] agree on it. *)
Example hello_scenario_async :
  messages (handleSubmitAsync sdkAccepts 5 5 helloFragments Completed
              (draftState [welcomeMessage] (js "Hello") false)).1
  = helloExchange.
Proof. reflexivity. Qed.

(** ** Identifiers *)

Lemma js_inj (s1 s2 : string) : js s1 = js s2 -> s1 = s2.
Proof.
  unfold js. intros H.
  rewrite <- (string_of_list_ascii_of_string s1),
          <- (string_of_list_ascii_of_string s2).
  f_equal. revert H.
  generalize (list_ascii_of_string s1) (list_ascii_of_string s2).
  induction l as [|a l IH]; intros [|b l'] H; simplify_eq/=; [done |].
  f_equal; [| by apply IH].
  rewrite <- (ascii_N_embedding a), <- (ascii_N_embedding b). congruence.
Qed.

Lemma to_int_proper (n : Z) :
  Z.to_int n <> Decimal.Pos Decimal.Nil /\ Z.to_int n <> Decimal.Neg Decimal.Nil.
Proof.
  destruct n as [|p|p]; simpl; split; try discriminate;
    intros [= H]; by apply DecimalPos.Unsigned.to_uint_nonnil in H.
Qed.

Lemma toString_inj (a b : Z) : toString a = toString b -> a = b.
Proof.
  unfold toString. intros H. apply js_inj in H.
  apply DecimalZ.to_int_inj.
  destruct (to_int_proper a) as [Ha1 Ha2], (to_int_proper b) as [Hb1 Hb2].
  pose proof (NilZero.isi _ Ha1 Ha2) as Ia.
  pose proof (NilZero.isi _ Hb1 Hb2) as Ib.
  rewrite H in Ia. congruence.
Qed.

Lemma user_id_not_bot_id (x y : JsString) : js "user-" ++ x <> js "bot-" ++ y.
Proof. discriminate. Qed.

Lemma welcome_id_not_bot_id (y : JsString) : js "welcome" <> js "bot-" ++ y.
Proof. discriminate. Qed.

Lemma welcome_id_not_user_id (y : JsString) : js "welcome" <> js "user-" ++ y.
Proof. discriminate. Qed.

Lemma bot_id_inj (a b : Z) :
  js "bot-" ++ toString a = js "bot-" ++ toString b -> a = b.
Proof. intros H. apply toString_inj. by simplify_eq/=. Qed.

Lemma user_id_inj (a b : Z) :
  js "user-" ++ toString a = js "user-" ++ toString b -> a = b.
Proof. intros H. apply toString_inj. by simplify_eq/=. Qed.

(** ** What a stream update keeps *)

Lemma updateWhere_senders b f msgs :
  (forall msg, id (f msg) = id msg /\ sender (f msg) = sender msg) ->
  sender <$> updateWhere b f msgs = sender <$> msgs.
Proof.
  intros Hf. unfold updateWhere. rewrite <- list_fmap_compose.
  apply list_fmap_ext. intros _ msg _. simpl.
  case_bool_decide; [apply Hf | done].
Qed.

Lemma updateWhere_last b f msgs :
  last (updateWhere b f msgs) =
  (fun msg => if bool_decide (id msg = b) then f msg else msg) <$> last msgs.
Proof. unfold updateWhere. apply fmap_last. Qed.

Lemma updateWhere_user_ids b f msgs :
  (forall msg, id (f msg) = id msg /\ sender (f msg) = sender msg) ->
  Forall (fun msg => sender msg = user ->
                     exists now, id msg = js "user-" ++ toString now) msgs ->
  Forall (fun msg => sender msg = user ->
                     exists now, id msg = js "user-" ++ toString now)
         (updateWhere b f msgs).
Proof.
  intros Hf Hall. unfold updateWhere. apply Forall_fmap.
  eapply Forall_impl; [exact Hall |]. intros msg Hmsg. simpl.
  case_bool_decide; [| done]. destruct (Hf msg) as [-> ->]. exact Hmsg.
Qed.

(** An update aimed at a [bot-] identifier passes the user messages
    by. *)
Lemma updateWhere_userTexts y f msgs :
  (forall msg, id (f msg) = id msg /\ sender (f msg) = sender msg) ->
  Forall (fun msg => sender msg = user ->
                     exists now, id msg = js "user-" ++ toString now) msgs ->
  userTexts (updateWhere (js "bot-" ++ y) f msgs) = userTexts msgs.
Proof.
  intros Hf Hall. unfold userTexts. f_equal. unfold updateWhere.
  induction Hall as [|msg msgs Hmsg Hall IH]; [done |].
  cbn [fmap list_fmap List.filter]. cbn [fmap] in IH. rewrite IH.
  case_bool_decide as Hb; [| done].
  assert (isUser msg = false) as Hu.
  { unfold isUser. destruct (sender msg) eqn:Hs; [| done].
    destruct (Hmsg eq_refl) as [now Hid]. rewrite Hid in Hb.
    by apply user_id_not_bot_id in Hb. }
  assert (isUser (f msg) = false) as ->.
  { unfold isUser in *. by destruct (Hf msg) as [_ ->]. }
  by rewrite Hu.
Qed.

Lemma updateWhere_welcome y f msgs :
  msgs !! 0 = Some welcomeMessage ->
  updateWhere (js "bot-" ++ y) f msgs !! 0 = Some welcomeMessage.
Proof.
  intros H0. apply updateWhere_lookup_miss; [exact H0 |].
  apply welcome_id_not_bot_id.
Qed.

Lemma pairs_snoc {A} (n : nat) (x : list A) :
  concat (replicate n x) ++ x = concat (replicate (S n) x).
Proof.
  induction n as [|n IH]; simpl; [by rewrite app_nil_r |].
  by rewrite <- app_assoc, IH.
Qed.

Lemma requests_app l1 l2 : requests (l1 ++ l2) = requests l1 ++ requests l2.
Proof. unfold requests. apply omap_app. Qed.

Lemma userTexts_app l1 l2 : userTexts (l1 ++ l2) = userTexts l1 ++ userTexts l2.
Proof. unfold userTexts. by rewrite List.filter_app, fmap_app. Qed.

(** ** The chat between events *)


Lemma chatInv_initial ctor : chatInv ctor initialWorld.
Proof.
  split; [done |]. split; [done |]. split; [by exists 0 |].
  split; [| done]. by repeat constructor.
Qed.

(** The parts of [chatInv] about the transcript alone pass through an
    update aimed at a [bot-] identifier. *)
Lemma transcript_update y f msgs (reqs : list Request) :
  (forall msg, id (f msg) = id msg /\ sender (f msg) = sender msg) ->
  msgs !! 0 = Some welcomeMessage
  /\ (exists n, sender <$> msgs = bot :: concat (replicate n [user; bot]))
  /\ Forall (fun msg => sender msg = user ->
                        exists now, id msg = js "user-" ++ toString now) msgs
  /\ contents <$> reqs = userTurn <$> userTexts msgs ->
  updateWhere (js "bot-" ++ y) f msgs !! 0 = Some welcomeMessage
  /\ (exists n, sender <$> updateWhere (js "bot-" ++ y) f msgs
                = bot :: concat (replicate n [user; bot]))
  /\ Forall (fun msg => sender msg = user ->
                        exists now, id msg = js "user-" ++ toString now)
            (updateWhere (js "bot-" ++ y) f msgs)
  /\ contents <$> reqs
     = userTurn <$> userTexts (updateWhere (js "bot-" ++ y) f msgs).
Proof.
  intros Hf (H0 & Hshape & Hids & Hreq).
  split; [by apply updateWhere_welcome |].
  split; [by rewrite updateWhere_senders |].
  split; [by apply updateWhere_user_ids |].
  by rewrite updateWhere_userTexts.
Qed.

(** The same parts after the pair of an accepted submit is appended. *)
Lemma transcript_append now1 now2 draft msgs (reqs : list Request) g params :
  msgs !! 0 = Some welcomeMessage
  /\ (exists n, sender <$> msgs = bot :: concat (replicate n [user; bot]))
  /\ Forall (fun msg => sender msg = user ->
                        exists now, id msg = js "user-" ++ toString now) msgs
  /\ contents <$> reqs = userTurn <$> userTexts msgs ->
  let msgs' := msgs ++ [userMessageOf now1 draft; placeholder now2 [] true] in
  let reqs' := reqs ++ [{| req_client := g; req_params := params;
                           contents := userTurn draft |}] in
  msgs' !! 0 = Some welcomeMessage
  /\ (exists n, sender <$> msgs' = bot :: concat (replicate n [user; bot]))
  /\ Forall (fun msg => sender msg = user ->
                        exists now, id msg = js "user-" ++ toString now) msgs'
  /\ contents <$> reqs' = userTurn <$> userTexts msgs'.
Proof.
  intros (H0 & [n Hshape] & Hids & Hreq). simpl.
  split; [by apply lookup_app_l_Some |].
  split.
  { exists (S n). rewrite fmap_app, Hshape, <- pairs_snoc. done. }
  split.
  { apply Forall_app. split; [exact Hids |].
    repeat constructor; [by exists now1 | done]. }
  rewrite !fmap_app, userTexts_app, fmap_app, Hreq. done.
Qed.

Opaque js toString.

Lemma step_chatInv ctor w e w' :
  sessionInv w -> chatInv ctor w -> step ctor w e = Some w' -> chatInv ctor w'.
Proof.
  intros Hsess (Hkey & H0 & Hshape & Hids & Hreq & Hpend) Hstep.
  destruct e; simpl in Hstep.
  - (* typing into the key form *)
    destruct (isApiKeySet (ui w)) eqn:Hset; [done |]. simplify_eq.
    unfold chatInv. simpl. by rewrite Hset.
  - (* handleApiKeySubmit *)
    destruct (isApiKeySet (ui w)) eqn:Hset; [done |].
    destruct (truthy (apiKeyInput (ui w))); [| done].
    cbn [orb negb] in Hstep. unfold handleApiKeySubmit in Hstep.
    destruct Hkey as (Hm & Hp & Hin & Hl & Hg).
    destruct (ctor (apiKeyInput (ui w))) as [g|] eqn:Hc; simplify_eq;
      unfold chatInv; simpl; rewrite ?Hset.
    + split; [by exists g |]. repeat split; try done.
      by rewrite requests_app, app_nil_r.
    + repeat split; try done. by rewrite requests_app, app_nil_r.
  - (* handleInputChange *)
    destruct (isApiKeySet (ui w) && negb (isLoading (ui w))) eqn:Hen; [| done].
    apply andb_true_iff in Hen as [Hset _]. simplify_eq.
    unfold chatInv. simpl. rewrite Hset in *. done.
  - (* handleSubmit *)
    destruct (isApiKeySet (ui w)) eqn:Hset; [| done].
    destruct Hkey as (g & Hg & Hc).
    destruct (truthy (trim (inputValue (ui w)))) eqn:Ht.
    + destruct (sessionInv_draft _ Hsess Ht) as (Hl & Hnil & Hcount).
      assert (ensureClient ctor (ui w) = Some g) as Hens.
      { unfold ensureClient. by rewrite Hg. }
      rewrite (handleSubmit_accepted _ _ _ _ g Ht Hens) in Hstep.
      simplify_eq. unfold chatInv. simpl. rewrite Hset, Hnil.
      split; [by exists g |].
      rewrite requests_app. simpl.
      destruct (transcript_append now1 now2 (inputValue (ui w)) _ _ g chatParams
                  (conj H0 (conj Hshape (conj Hids Hreq))))
        as (H0' & Hshape' & Hids' & Hreq').
      split; [exact H0' |]. split; [exact Hshape' |].
      split; [exact Hids' |]. split; [exact Hreq' |].
      repeat constructor. exists now2, (placeholder now2 [] true).
      split; [done |]. split; [| done].
      by rewrite last_app_cons.
    + rewrite (handleSubmit_blank _ _ _ _ Ht) in Hstep. simplify_eq.
      unfold chatInv. simpl. rewrite Hset, !app_nil_r.
      split; [by exists g |]. done.
  - (* a fragment *)
    destruct Hsess as [_ Hp].
    destruct (pending w) as [|t [|t' p]] eqn:Hpe; [done | | done].
    destruct i as [|i]; [| done]. simpl in Hstep. simplify_eq.
    apply Forall_singleton in Hpend
      as (now & msg & Hb & Hlast & Hid & Htxt & Hstr & Hsnd).
    unfold chatInv. simpl. unfold applyChunk. rewrite Hb.
    split.
    { destruct (isApiKeySet (ui w)); [exact Hkey |].
      by destruct Hkey as (_ & ? & _). }
    destruct (transcript_update (toString now) (withText (fullText t ++ chunkText))
                _ _ (withText_frame _) (conj H0 (conj Hshape (conj Hids Hreq))))
      as (H0' & Hshape' & Hids' & Hreq').
    split; [exact H0' |]. split; [exact Hshape' |].
    split; [exact Hids' |]. split; [exact Hreq' |].
    apply Forall_singleton. simpl.
    exists now, (withText (fullText t ++ chunkText) msg).
    split; [done |]. rewrite updateWhere_last, Hlast. simpl.
    rewrite bool_decide_eq_true_2 by congruence.
    repeat split; try done. simpl. congruence.
  - (* the end of the stream *)
    destruct Hsess as [_ Hp].
    destruct (pending w) as [|t [|t' p]] eqn:Hpe; [done | | done].
    destruct i as [|i]; [| done]. simpl in Hstep. simplify_eq.
    apply Forall_singleton in Hpend
      as (now & msg & Hb & Hlast & Hid & Htxt & Hstr & Hsnd).
    unfold chatInv. simpl. unfold markDone. rewrite Hb.
    split.
    { destruct (isApiKeySet (ui w)); [exact Hkey |].
      by destruct Hkey as (_ & ? & _). }
    destruct (transcript_update (toString now) withDone
                _ _ withDone_frame (conj H0 (conj Hshape (conj Hids Hreq))))
      as (H0' & Hshape' & Hids' & Hreq').
    done.
  - (* a fault *)
    destruct Hsess as [_ Hp].
    destruct (pending w) as [|t [|t' p]] eqn:Hpe; [done | | done].
    destruct i as [|i]; [| done]. simpl in Hstep. simplify_eq.
    apply Forall_singleton in Hpend
      as (now & msg & Hb & Hlast & Hid & Htxt & Hstr & Hsnd).
    unfold chatInv. simpl. unfold writeError. rewrite Hb.
    split.
    { destruct (isApiKeySet (ui w)); [exact Hkey |].
      by destruct Hkey as (_ & ? & _). }
    destruct (transcript_update (toString now) withError
                _ _ withError_frame (conj H0 (conj Hshape (conj Hids Hreq))))
      as (H0' & Hshape' & Hids' & Hreq').
    rewrite requests_app, app_nil_r. done.
Qed.

Lemma run_invariants ctor events w w' :
  sessionInv w -> chatInv ctor w -> run ctor w events = Some w' ->
  sessionInv w' /\ chatInv ctor w'.
Proof.
  revert w. induction events as [|e events IH]; intros w Hs Hc Hrun;
    simpl in Hrun.
  - by simplify_eq.
  - destruct (step ctor w e) as [w1|] eqn:Hstep; [| done]. simpl in Hrun.
    apply (IH w1); [by eapply step_sessionInv | by eapply step_chatInv | done].
Qed.

Lemma reachable_invariants ctor w :
  reachable ctor w -> sessionInv w /\ chatInv ctor w.
Proof.
  intros [events Hrun].
  eapply run_invariants; [apply sessionInv_initial | apply chatInv_initial |].
  exact Hrun.
Qed.

Lemma reachable_run ctor w events w' :
  reachable ctor w -> run ctor w events = Some w' -> reachable ctor w'.
Proof.
  intros [events0 Hrun0] Hrun. exists (events0 ++ events).
  by rewrite run_app, Hrun0.
Qed.

Transparent js toString.

(** ** The chat surface and its client *)

(** X1: in every world the event loop reaches with the chat surface
    shown, a submit of a draft that is not blank finds the client the
    constructor builds from the stored key, issues exactly one request
    with it and suspends; the branch of [handleSubmit] that builds a
    client, and the error path behind it, are never taken. *)
Theorem chat_submit_issues_request
    (ctor : JsString -> option GoogleGenerativeAI) (w : World)
    (now1 now2 : Z) :
  reachable ctor w ->
  isApiKeySet (ui w) = true ->
  truthy (trim (inputValue (ui w))) = true ->
  exists g,
    genAIRef (ui w) = Some g /\ ctor (apiKey (ui w)) = Some g /\
    (handleSubmit ctor now1 now2 (ui w)).1.2
    = [GenerateContentStream
         {| req_client := g; req_params := chatParams;
            contents := userTurn (inputValue (ui w)) |}] /\
    (handleSubmit ctor now1 now2 (ui w)).2
    = Some {| botMessageId := js "bot-" ++ toString now2; fullText := [] |}.
Proof.
  intros Hr Hset Ht. apply reachable_invariants in Hr as [_ (Hkey & _)].
  rewrite Hset in Hkey. destruct Hkey as (g & Hg & Hc). exists g.
  split; [done |]. split; [done |].
  assert (ensureClient ctor (ui w) = Some g) as Hens.
  { unfold ensureClient. by rewrite Hg. }
  by rewrite (handleSubmit_accepted _ _ _ _ g Ht Hens).
Qed.

Lemma chat_submit_issues_request_witness :
  reachable sdkAccepts (worldAfter helloDrafted) /\
  isApiKeySet (ui (worldAfter helloDrafted)) = true /\
  truthy (trim (inputValue (ui (worldAfter helloDrafted)))) = true /\
  exists g,
    genAIRef (ui (worldAfter helloDrafted)) = Some g /\
    sdkAccepts (apiKey (ui (worldAfter helloDrafted))) = Some g /\
    (handleSubmit sdkAccepts 5 5 (ui (worldAfter helloDrafted))).1.2
    = [GenerateContentStream
         {| req_client := g; req_params := chatParams;
            contents := userTurn (inputValue (ui (worldAfter helloDrafted))) |}] /\
    (handleSubmit sdkAccepts 5 5 (ui (worldAfter helloDrafted))).2
    = Some {| botMessageId := js "bot-" ++ toString 5; fullText := [] |}.
Proof.
  split; [by exists helloDrafted |]. split; [reflexivity |].
  split; [reflexivity |].
  apply (chat_submit_issues_request sdkAccepts (worldAfter helloDrafted) 5 5);
    [by exists helloDrafted | reflexivity | reflexivity].
Defined.

(** X2: as long as no key has been accepted, in every world the event
    loop reaches, the transcript is the welcome message alone, the draft
    is empty, nothing is loading or suspended, there is no client and no
    request has been sent, however many keys were rejected. *)
Theorem key_form_is_pristine
    (ctor : JsString -> option GoogleGenerativeAI) (w : World) :
  reachable ctor w ->
  isApiKeySet (ui w) = false ->
  render (ui w) = ApiKeyForm (apiKeyInput (ui w)) /\
  messages (ui w) = [welcomeMessage] /\ inputValue (ui w) = [] /\
  isLoading (ui w) = false /\ pending w = [] /\ genAIRef (ui w) = None /\
  requests (log w) = [].
Proof.
  intros Hr Hset.
  apply reachable_invariants in Hr as [_ (Hkey & _ & _ & _ & Hreq & _)].
  rewrite Hset in Hkey. destruct Hkey as (Hm & Hp & Hin & Hl & Hg).
  unfold render. rewrite Hset. repeat split; try done.
  rewrite Hm in Hreq. by apply fmap_nil_inv in Hreq.
Qed.

Lemma key_form_is_pristine_witness :
  reachable sdkThrows (worldAfterWith sdkThrows (keySubmitted (js "bad"))) /\
  isApiKeySet (ui (worldAfterWith sdkThrows (keySubmitted (js "bad")))) = false /\
  messages (ui (worldAfterWith sdkThrows (keySubmitted (js "bad"))))
  = [welcomeMessage].
Proof.
  split; [by exists (keySubmitted (js "bad")) |]. split; [reflexivity |].
  apply (key_form_is_pristine sdkThrows
           (worldAfterWith sdkThrows (keySubmitted (js "bad"))));
    [by exists (keySubmitted (js "bad")) | reflexivity].
Defined.

(** ** The shape of the transcript *)

Lemma users_of_pairs n (msgs : list Message) :
  sender <$> msgs = concat (replicate n [user; bot]) ->
  length (List.filter isUser msgs) = n.
Proof.
  revert msgs. induction n as [|n IH]; intros msgs H; simpl in H.
  - by apply fmap_nil_inv in H as ->.
  - destruct msgs as [|m1 [|m2 msgs]]; [done | done |].
    rewrite !fmap_cons in H. injection H as H1 H2 H3. simpl.
    unfold isUser at 1 2. rewrite H1, H2. simpl. f_equal. by apply IH.
Qed.

Lemma length_pairs {A} n (x y : A) :
  length (concat (replicate n [x; y])) = 2 * n.
Proof. induction n as [|n IH]; simpl; [done | rewrite IH; lia]. Qed.

(** X3: in every world the event loop reaches, the transcript is the
    welcome message followed by pairs of a user message and an answer of
    the bot, in this order; its length is odd, and there are as many
    pairs as requests sent. *)
Theorem transcript_alternates
    (ctor : JsString -> option GoogleGenerativeAI) (w : World) :
  reachable ctor w ->
  messages (ui w) !! 0 = Some welcomeMessage /\
  exists n,
    sender <$> messages (ui w) = bot :: concat (replicate n [user; bot]) /\
    length (messages (ui w)) = 1 + 2 * n /\
    length (requests (log w)) = n.
Proof.
  intros Hr.
  apply reachable_invariants in Hr as [_ (_ & H0 & [n Hshape] & _ & Hreq & _)].
  split; [exact H0 |]. exists n. split; [exact Hshape |]. split.
  - apply (f_equal length) in Hshape. rewrite length_fmap in Hshape.
    rewrite Hshape. simpl. by rewrite length_pairs.
  - apply (f_equal length) in Hreq. rewrite !length_fmap in Hreq.
    rewrite Hreq. unfold userTexts. rewrite length_fmap.
    destruct (messages (ui w)) as [|m msgs]; [done |].
    rewrite fmap_cons in Hshape. injection Hshape as H1 H2. simpl.
    unfold isUser at 1. rewrite H1. by apply users_of_pairs.
Qed.

Lemma transcript_alternates_witness :
  reachable sdkAccepts (worldAfter helloEvents) /\
  messages (ui (worldAfter helloEvents)) !! 0 = Some welcomeMessage.
Proof.
  split; [by exists helloEvents |].
  apply (transcript_alternates sdkAccepts (worldAfter helloEvents)).
  by exists helloEvents.
Defined.

(** X4: in every world the event loop reaches, the requests sent so far
    are, in order, one per user message of the transcript, each with the
    single turn of role [user] whose only part is the text of that
    message: nothing the user said goes unsent or is sent twice, and
    nothing else is sent. *)
Theorem requests_are_user_messages
    (ctor : JsString -> option GoogleGenerativeAI) (w : World) :
  reachable ctor w ->
  contents <$> requests (log w) = userTurn <$> userTexts (messages (ui w)).
Proof.
  intros Hr. by apply reachable_invariants in Hr as [_ (_ & _ & _ & _ & Hreq & _)].
Qed.

Lemma requests_are_user_messages_witness :
  reachable sdkAccepts (worldAfter helloEvents) /\
  contents <$> requests (log (worldAfter helloEvents))
  = userTurn <$> userTexts (messages (ui (worldAfter helloEvents))).
Proof.
  split; [by exists helloEvents |].
  apply (requests_are_user_messages sdkAccepts (worldAfter helloEvents)).
  by exists helloEvents.
Defined.

(** ** The cursor *)

Lemma cursors_render msgs : cursors (renderMessage <$> msgs) = streamingCount msgs.
Proof.
  unfold cursors, streamingCount. induction msgs as [|m msgs IH]; [done |].
  rewrite fmap_cons. simpl. destruct (streamingNow m); simpl; by rewrite IH.
Qed.

Lemma streamingCount_last msgs msg :
  last msgs = Some msg -> streamingNow msg = true -> 1 <= streamingCount msgs.
Proof.
  intros Hl Hs. apply last_Some in Hl as [l' ->].
  rewrite streamingCount_app. unfold streamingCount at 2. simpl.
  rewrite Hs. simpl. lia.
Qed.

(** X5: in every world the event loop reaches, the chat surface shows a
    cursor exactly while its controls are disabled: no cursor when they
    are enabled, and one when they are disabled, in the last bubble,
    which is a bubble of the bot; the draft field is then empty. *)
Theorem cursor_shown_while_busy
    (ctor : JsString -> option GoogleGenerativeAI) (w : World)
    (bubbles : list Bubble) (value : JsString) (disabled : bool) :
  reachable ctor w ->
  render (ui w) = ChatSurface bubbles value disabled ->
  cursors bubbles = (if disabled then 1 else 0) /\
  (disabled = true ->
   value = [] /\
   exists b, last bubbles = Some b /\ cursor b = true /\
             style b = botMessageStyle).
Proof.
  intros Hr Hv. unfold render in Hv.
  destruct (isApiKeySet (ui w)); [| done]. simpl in Hv. simplify_eq.
  apply reachable_invariants
    in Hr as [[Hbusy Hp] (_ & _ & _ & _ & _ & Hpend)].
  rewrite cursors_render.
  destruct (pending w) as [|t [|t' p]]; [| | done].
  - destruct Hp as [-> ->]. by split.
  - destruct Hp as (Hl & Hc & _). rewrite Hl.
    apply Forall_singleton in Hpend
      as (now & msg & Hb & Hlast & Hid & Htxt & Hstr & Hsnd).
    assert (streamingNow msg = true) as Hnow.
    { unfold streamingNow. by rewrite Hstr. }
    split.
    + pose proof (streamingCount_last _ _ Hlast Hnow). lia.
    + intros _. split; [by apply Hbusy |].
      exists (renderMessage msg). rewrite fmap_last, Hlast.
      split; [done |]. split; [done |]. simpl. by rewrite Hsnd.
Qed.

Lemma cursor_shown_while_busy_witness :
  reachable sdkAccepts (worldAfter helloStreaming) /\
  render (ui (worldAfter helloStreaming))
  = ChatSurface (renderMessage <$> messages (ui (worldAfter helloStreaming)))
      [] true /\
  cursors (renderMessage <$> messages (ui (worldAfter helloStreaming))) = 1.
Proof.
  split; [by exists helloStreaming |]. split; [reflexivity |].
  apply (cursor_shown_while_busy sdkAccepts (worldAfter helloStreaming)
           (renderMessage <$> messages (ui (worldAfter helloStreaming)))
           [] true);
    [by exists helloStreaming | reflexivity].
Defined.



(** ** What the user said stays *)

Lemma step_keeps_user_message ctor w e w' j msg :
  chatInv ctor w -> step ctor w e = Some w' ->
  messages (ui w) !! j = Some msg -> sender msg = user ->
  messages (ui w') !! j = Some msg.
Proof.
  intros (_ & _ & _ & Hids & _ & Hpend) Hstep Hj Hu.
  destruct (proj1 (Forall_lookup _ _) Hids j msg Hj Hu) as [now Hid].
  assert (forall t i, pending w !! i = Some t -> id msg <> botMessageId t) as Hne.
  { intros t i Hi.
    destruct (proj1 (Forall_lookup _ _) Hpend i t Hi) as (now' & _ & -> & _).
    rewrite Hid. apply user_id_not_bot_id. }
  destruct e; simpl in Hstep.
  - destruct (isApiKeySet (ui w)); by simplify_eq.
  - destruct (isApiKeySet (ui w)); [done |]. destruct (truthy (apiKeyInput (ui w))); [| done]. cbn [orb negb] in Hstep. unfold handleApiKeySubmit in Hstep.
    destruct (ctor (apiKeyInput (ui w))); by simplify_eq.
  - destruct (isApiKeySet (ui w) && negb (isLoading (ui w))); by simplify_eq.
  - destruct (isApiKeySet (ui w)); [| done].
    destruct (truthy (trim (inputValue (ui w)))) eqn:Ht.
    + destruct (ensureClient ctor (ui w)) as [g|] eqn:Hg.
      * rewrite (handleSubmit_accepted _ _ _ _ g Ht Hg) in Hstep.
        simplify_eq. simpl. by apply lookup_app_l_Some.
      * rewrite (handleSubmit_thrown _ _ _ _ Ht Hg) in Hstep.
        simplify_eq. simpl. unfold writeError.
        apply updateWhere_lookup_miss; [by apply lookup_app_l_Some |].
        rewrite Hid. apply user_id_not_bot_id.
    + rewrite (handleSubmit_blank _ _ _ _ Ht) in Hstep. by simplify_eq.
  - destruct (pending w !! i) as [t|] eqn:Hi; [| done]. simpl in Hstep.
    simplify_eq. simpl. unfold applyChunk.
    apply updateWhere_lookup_miss; [done | by eapply Hne].
  - destruct (pending w !! i) as [t|] eqn:Hi; [| done]. simpl in Hstep.
    simplify_eq. simpl. unfold markDone.
    apply updateWhere_lookup_miss; [done | by eapply Hne].
  - destruct (pending w !! i) as [t|] eqn:Hi; [| done]. simpl in Hstep.
    simplify_eq. simpl. unfold writeError.
    apply updateWhere_lookup_miss; [done | by eapply Hne].
Qed.

(** X7: from every world the event loop reaches, along any further
    events, a message of the user stays as it is, in its place: no
    fragment, stream end or fault rewrites what the user said, because
    the identifiers of user messages never equal that of a
    placeholder. *)
Theorem user_messages_never_rewritten
    (ctor : JsString -> option GoogleGenerativeAI) (events : list Event)
    (w w' : World) (j : nat) (msg : Message) :
  reachable ctor w ->
  run ctor w events = Some w' ->
  messages (ui w) !! j = Some msg ->
  sender msg = user ->
  messages (ui w') !! j = Some msg.
Proof.
  intros Hr. apply reachable_invariants in Hr as [Hs Hc].
  revert w Hs Hc. induction events as [|e events IH];
    intros w Hs Hc Hrun Hj Hu; simpl in Hrun.
  - by simplify_eq.
  - destruct (step ctor w e) as [w1|] eqn:Hstep; [| done]. simpl in Hrun.
    apply (IH w1); [by eapply step_sessionInv | by eapply step_chatInv
                   | done | by eapply step_keeps_user_message | done].
Qed.

Lemma user_messages_never_rewritten_witness :
  reachable sdkAccepts (worldAfter helloSubmitted) /\
  run sdkAccepts (worldAfter helloSubmitted)
    [StreamChunk 0 (js "Hi"); StreamError 0]
  = Some (worldAfter (helloSubmitted ++
                      [StreamChunk 0 (js "Hi"); StreamError 0])) /\
  messages (ui (worldAfter helloSubmitted)) !! 1
  = Some (userMessageOf 5 (js "Hello")) /\
  messages (ui (worldAfter (helloSubmitted ++
                            [StreamChunk 0 (js "Hi"); StreamError 0]))) !! 1
  = Some (userMessageOf 5 (js "Hello")).
Proof.
  split; [by exists helloSubmitted |]. split; [reflexivity |].
  split; [reflexivity |].
  apply (user_messages_never_rewritten sdkAccepts
           [StreamChunk 0 (js "Hi"); StreamError 0]
           (worldAfter helloSubmitted)
           (worldAfter (helloSubmitted ++
                        [StreamChunk 0 (js "Hi"); StreamError 0]))
           1 (userMessageOf 5 (js "Hello")));
    [by exists helloSubmitted | reflexivity | reflexivity | reflexivity].
Defined.

(** ** Identifiers and clock readings *)

(** X8: the identifiers [handleSubmit] generates tell the clock reading
    and the kind of message: two user messages, or two placeholders,
    have the same identifier exactly when their readings of [Date.now()]
    are equal, and the identifier of a user message is never that of a
    placeholder nor that of the welcome message. *)
Theorem generated_ids_distinct (a b : Z) (d d' x y : JsString) (p q : bool) :
  (id (userMessageOf a d) = id (userMessageOf b d') <-> a = b) /\
  (id (placeholder a x p) = id (placeholder b y q) <-> a = b) /\
  id (userMessageOf a d) <> id (placeholder b x p) /\
  id welcomeMessage <> id (userMessageOf a d) /\
  id welcomeMessage <> id (placeholder b x p).
Proof.
  split; [split; [apply user_id_inj | by intros ->] |].
  split; [split; [apply bot_id_inj | by intros ->] |].
  split; [apply user_id_not_bot_id |].
  split; [apply welcome_id_not_user_id | apply welcome_id_not_bot_id].
Qed.

(** ** Which submits are accepted *)

(** X13: [handleSubmit] leaves the component alone exactly when the
    draft is empty or white space only; any other draft is accepted,
    whatever [isLoading] says and whether or not a client can be built:
    the transcript then grows by two messages and the draft is
    cleared. *)
Theorem submit_rejected_iff_blank
    (ctor : JsString -> option GoogleGenerativeAI) (now1 now2 : Z)
    (s : State) :
  (handleSubmit ctor now1 now2 s = (s, [], None) <-> blank (inputValue s)) /\
  (~ blank (inputValue s) ->
   length (messages (handleSubmit ctor now1 now2 s).1.1)
   = length (messages s) + 2 /\
   inputValue (handleSubmit ctor now1 now2 s).1.1 = []).
Proof.
  assert (~ blank (inputValue s) ->
          length (messages (handleSubmit ctor now1 now2 s).1.1)
          = length (messages s) + 2 /\
          inputValue (handleSubmit ctor now1 now2 s).1.1 = []) as Hacc.
  { intros Hnb.
    assert (truthy (trim (inputValue s)) = true) as Ht.
    { destruct (truthy (trim (inputValue s))) eqn:Ht; [done |].
      by apply truthy_trim_false in Ht. }
    destruct (ensureClient ctor s) as [g|] eqn:Hg.
    - rewrite (handleSubmit_accepted _ _ _ _ g Ht Hg). simpl.
      by rewrite length_app.
    - rewrite (handleSubmit_thrown _ _ _ _ Ht Hg). simpl.
      unfold writeError. by rewrite updateWhere_length, length_app. }
  split; [| exact Hacc]. split.
  - intros Heq. destruct (truthy (trim (inputValue s))) eqn:Ht.
    + destruct Hacc as [Hlen _].
      { intros Hb. apply truthy_trim_false in Hb. congruence. }
      rewrite Heq in Hlen. simpl in Hlen. lia.
    + by apply truthy_trim_false.
  - intros Hb. apply truthy_trim_false in Hb. by apply handleSubmit_blank.
Qed.

Lemma submit_rejected_iff_blank_witness :
  ~ blank (inputValue (draftState helloExchange (js " hi ") true)) /\
  length (messages (handleSubmit sdkThrows 7 7
                      (draftState helloExchange (js " hi ") true)).1.1) = 5.
Proof.
  assert (~ blank (inputValue (draftState helloExchange (js " hi ") true)))
    as Hnb.
  { intros Hb. apply truthy_trim_false in Hb. discriminate. }
  split; [exact Hnb |].
  apply (submit_rejected_iff_blank sdkThrows 7 7
           (draftState helloExchange (js " hi ") true)).
  exact Hnb.
Defined.

(** ** Unique keys *)

Lemma updateWhere_ids b f msgs :
  (forall msg, id (f msg) = id msg /\ sender (f msg) = sender msg) ->
  ids (updateWhere b f msgs) = ids msgs.
Proof.
  intros Hf. unfold ids, updateWhere. rewrite <- list_fmap_compose.
  apply list_fmap_ext. intros _ msg _. simpl.
  case_bool_decide; [apply Hf | done].
Qed.

(** An event leaves the identifiers alone or, if it is a submit, may
    append the two it generates. *)
Lemma step_ids ctor w e w' :
  step ctor w e = Some w' ->
  ids (messages (ui w')) = ids (messages (ui w)) \/
  exists now1 now2,
    e = Submit now1 now2 /\
    ids (messages (ui w'))
    = ids (messages (ui w))
      ++ [js "user-" ++ toString now1; js "bot-" ++ toString now2].
Proof.
  intros Hstep. destruct e; simpl in Hstep.
  - destruct (isApiKeySet (ui w)); simplify_eq. by left.
  - destruct (isApiKeySet (ui w)); [done |]. destruct (truthy (apiKeyInput (ui w))); [| done]. cbn [orb negb] in Hstep. unfold handleApiKeySubmit in Hstep.
    destruct (ctor (apiKeyInput (ui w))); simplify_eq; by left.
  - destruct (isApiKeySet (ui w) && negb (isLoading (ui w))); simplify_eq.
    by left.
  - destruct (isApiKeySet (ui w)); [| done].
    destruct (truthy (trim (inputValue (ui w)))) eqn:Ht.
    + right. exists now1, now2. split; [done |].
      destruct (ensureClient ctor (ui w)) as [g|] eqn:Hg.
      * rewrite (handleSubmit_accepted _ _ _ _ g Ht Hg) in Hstep.
        simplify_eq. simpl. unfold ids. by rewrite fmap_app.
      * rewrite (handleSubmit_thrown _ _ _ _ Ht Hg) in Hstep.
        simplify_eq. simpl. unfold writeError.
        rewrite (updateWhere_ids _ _ _ withError_frame).
        unfold ids. by rewrite fmap_app.
    + rewrite (handleSubmit_blank _ _ _ _ Ht) in Hstep. simplify_eq. by left.
  - destruct (pending w !! i) as [t|]; [| done]. simpl in Hstep. simplify_eq.
    left. simpl. unfold applyChunk.
    by rewrite (updateWhere_ids _ _ _ (withText_frame _)).
  - destruct (pending w !! i) as [t|]; [| done]. simpl in Hstep. simplify_eq.
    left. simpl. unfold markDone.
    by rewrite (updateWhere_ids _ _ _ withDone_frame).
  - destruct (pending w !! i) as [t|]; [| done]. simpl in Hstep. simplify_eq.
    left. simpl. unfold writeError.
    by rewrite (updateWhere_ids _ _ _ withError_frame).
Qed.

Lemma clocks_cons e events :
  match e with
  | Submit now1 now2 =>
      userClocks (e :: events) = now1 :: userClocks events /\
      botClocks (e :: events) = now2 :: botClocks events
  | _ =>
      userClocks (e :: events) = userClocks events /\
      botClocks (e :: events) = botClocks events
  end.
Proof. by destruct e. Qed.

Lemma freshFor_tail e events l :
  freshFor (userClocks (e :: events)) (botClocks (e :: events)) l ->
  freshFor (userClocks events) (botClocks events) l.
Proof.
  intros Hf x Hx. destruct (Hf x Hx) as [H1 H2].
  pose proof (clocks_cons e events) as Hc.
  destruct e; destruct Hc as [Hc1 Hc2]; rewrite Hc1 in H1; rewrite Hc2 in H2;
    try (by split).
  split; intros now Hnow; [apply H1 | apply H2]; by right.
Qed.

Lemma NoDup_clocks_tail e events :
  NoDup (userClocks (e :: events)) -> NoDup (botClocks (e :: events)) ->
  NoDup (userClocks events) /\ NoDup (botClocks events).
Proof.
  intros H1 H2. pose proof (clocks_cons e events) as Hc.
  destruct e; destruct Hc as [Hc1 Hc2]; rewrite Hc1 in H1; rewrite Hc2 in H2;
    try (by split).
  apply NoDup_cons in H1 as [_ H1]. apply NoDup_cons in H2 as [_ H2]. by split.
Qed.

Lemma run_NoDup_ids ctor events w w' :
  run ctor w events = Some w' ->
  NoDup (ids (messages (ui w))) ->
  freshFor (userClocks events) (botClocks events) (ids (messages (ui w))) ->
  NoDup (userClocks events) -> NoDup (botClocks events) ->
  NoDup (ids (messages (ui w'))).
Proof.
  revert w. induction events as [|e events IH];
    intros w Hrun Hnd Hfresh Hu Hb; simpl in Hrun.
  - by simplify_eq.
  - destruct (step ctor w e) as [w1|] eqn:Hstep; [| done]. simpl in Hrun.
    destruct (NoDup_clocks_tail _ _ Hu Hb) as [Hu' Hb'].
    pose proof (freshFor_tail _ _ _ Hfresh) as Hfresh'.
    apply (IH w1 Hrun); try done.
    + destruct (step_ids _ _ _ _ Hstep) as [-> | (now1 & now2 & -> & ->)];
        [done |].
      simpl in Hfresh.
      apply NoDup_app. split; [done |]. split.
      * intros x Hx Hin. destruct (Hfresh x Hx) as [H1 H2].
        apply elem_of_cons in Hin as [-> | Hin].
        { by apply (H1 now1); [left |]. }
        apply list_elem_of_singleton in Hin as ->.
        by apply (H2 now2); [left |].
      * apply NoDup_cons. split; [| apply NoDup_singleton].
        intros Hin. apply list_elem_of_singleton in Hin.
        by apply user_id_not_bot_id in Hin.
    + destruct (step_ids _ _ _ _ Hstep) as [-> | (now1 & now2 & -> & ->)];
        [done |].
      simpl in Hu, Hb. apply NoDup_cons in Hu as [Hu1 _].
      apply NoDup_cons in Hb as [Hb1 _].
      intros x Hx. apply elem_of_app in Hx as [Hx | Hx]; [by apply Hfresh' |].
      apply elem_of_cons in Hx as [-> | Hx].
      * split; intros now Hnow Heq.
        -- apply user_id_inj in Heq as ->. by apply Hu1.
        -- by apply user_id_not_bot_id in Heq.
      * apply list_elem_of_singleton in Hx as ->.
        split; intros now Hnow Heq.
        -- symmetry in Heq. by apply user_id_not_bot_id in Heq.
        -- apply bot_id_inj in Heq as ->. by apply Hb1.
Qed.

(** X9: when no two submits of a sequence of events read the same value
    from the clock (neither for the user message nor for the
    placeholder), the identifiers of the transcript the events lead to
    from the initial world are pairwise distinct, and so are the keys of
    the bubbles rendered from it. *)
Theorem keys_unique_when_clock_ticks
    (ctor : JsString -> option GoogleGenerativeAI) (events : list Event)
    (w : World) :
  NoDup (userClocks events) ->
  NoDup (botClocks events) ->
  run ctor initialWorld events = Some w ->
  NoDup (ids (messages (ui w))) /\
  NoDup (key <$> (renderMessage <$> messages (ui w))).
Proof.
  intros Hu Hb Hrun.
  assert (NoDup (ids (messages (ui w)))) as Hnd.
  { apply (run_NoDup_ids ctor events initialWorld w Hrun); [| | done | done].
    - apply NoDup_singleton.
    - intros x Hx. apply list_elem_of_singleton in Hx as ->.
      split; intros now _;
        [apply welcome_id_not_user_id | apply welcome_id_not_bot_id]. }
  split; [exact Hnd |].
  by rewrite <- list_fmap_compose.
Qed.

Lemma keys_unique_when_clock_ticks_witness :
  NoDup (userClocks helloEvents) /\
  NoDup (botClocks helloEvents) /\
  run sdkAccepts initialWorld helloEvents = Some (worldAfter helloEvents) /\
  NoDup (ids (messages (ui (worldAfter helloEvents)))).
Proof.
  split; [apply NoDup_singleton |]. split; [apply NoDup_singleton |].
  split; [reflexivity |].
  apply (keys_unique_when_clock_ticks sdkAccepts helloEvents
           (worldAfter helloEvents));
    [apply NoDup_singleton | apply NoDup_singleton | reflexivity].
Defined.

(** ** The whole call on the whole transcript *)

Lemma updateWhere_twice b f g msgs :
  (forall msg, id (f msg) = id msg) ->
  updateWhere b g (updateWhere b f msgs)
  = updateWhere b (fun msg => g (f msg)) msgs.
Proof.
  intros Hf. unfold updateWhere. rewrite <- list_fmap_compose.
  apply list_fmap_ext. intros _ msg _. simpl.
  destruct (bool_decide (id msg = b)) eqn:Hb.
  - rewrite bool_decide_eq_true_2; [done |].
    rewrite Hf. by apply bool_decide_eq_true in Hb.
  - by rewrite Hb.
Qed.

Lemma updateWhere_fresh b f msgs :
  (forall msg, msg ∈ msgs -> id msg <> b) -> updateWhere b f msgs = msgs.
Proof.
  intros Hfresh. unfold updateWhere.
  rewrite <- (list_fmap_id msgs) at 2.
  apply list_fmap_ext. intros i msg Hi. simpl.
  rewrite bool_decide_eq_false_2; [done |].
  apply Hfresh. by eapply list_elem_of_lookup_2.
Qed.

Lemma updateWhere_app b f l1 l2 :
  updateWhere b f (l1 ++ l2) = updateWhere b f l1 ++ updateWhere b f l2.
Proof. unfold updateWhere. apply fmap_app. Qed.

(** After the first fragment the loop is one update with the
    accumulator. *)
Lemma consume_messages c rest t s :
  messages (consume (c :: rest) t s).2
  = applyChunk (botMessageId t) (fullText t ++ concat (c :: rest)) (messages s).
Proof.
  revert c t s. induction rest as [|c' rest IH]; intros c t s.
  - simpl. by rewrite app_nil_r.
  - change (consume (c :: c' :: rest) t s)
      with (consume (c' :: rest) (onChunk c t s).1 (onChunk c t s).2).
    rewrite IH. cbn [onChunk fst snd botMessageId fullText messages setMessages].
    unfold applyChunk. rewrite updateWhere_twice by done.
    cbn [concat]. by rewrite <- app_assoc.
Qed.

Lemma handleSubmitAsync_messages ctor now1 now2 chunks outcome s g :
  truthy (trim (inputValue s)) = true ->
  ensureClient ctor s = Some g ->
  messages (handleSubmitAsync ctor now1 now2 chunks outcome s).1
  = updateWhere (js "bot-" ++ toString now2)
      (fun msg =>
         match outcome with
         | Faulted => withError msg
         | Completed =>
             withDone (match chunks with
                       | [] => msg
                       | _ :: _ => withText (concat chunks) msg
                       end)
         end)
      (messages s ++ [userMessageOf now1 (inputValue s);
                      placeholder now2 [] true]).
Proof.
  intros Ht Hg. unfold handleSubmitAsync.
  rewrite (handleSubmit_accepted _ _ _ _ g Ht Hg).
  destruct chunks as [|c rest].
  - destruct outcome; reflexivity.
  - match goal with |- context [consume (c :: rest) ?t ?s1] =>
      pose proof (consume_messages c rest t s1) as Hm;
      pose proof (consume_task (c :: rest) t s1) as Htask;
      destruct (consume (c :: rest) t s1) as [t' s2]
    end.
    cbn [fst snd] in Hm, Htask. subst t'.
    cbn [botMessageId fullText messages setMessages setGenAIRef setIsLoading
         setInputValue app] in Hm.
    destruct outcome;
      cbn [fst snd onStreamEnd onStreamError botMessageId messages
           setMessages setIsLoading];
      rewrite Hm; unfold markDone, writeError, applyChunk;
      by rewrite updateWhere_twice.
Qed.

(** X10: when no message of the transcript has the identifier of the new
    placeholder, a whole accepted call with a client appends exactly two
    messages and changes no other: the user message with the draft as
    typed, untrimmed, and the answer, which is the concatenation of the
    fragments after a stream that ends and the error text after one that
    faults, with [isStreaming = false]; the draft is then empty and
    [isLoading] false. *)
Theorem fresh_call_appends_pair
    (ctor : JsString -> option GoogleGenerativeAI) (now1 now2 : Z)
    (chunks : list JsString) (outcome : StreamOutcome) (s : State) :
  truthy (trim (inputValue s)) = true ->
  is_Some (ensureClient ctor s) ->
  (forall msg, msg ∈ messages s -> id msg <> js "bot-" ++ toString now2) ->
  messages (handleSubmitAsync ctor now1 now2 chunks outcome s).1
  = messages s ++
    [userMessageOf now1 (inputValue s);
     placeholder now2 (match outcome with
                       | Completed => concat chunks
                       | Faulted => errorText
                       end) false]
  /\ inputValue (handleSubmitAsync ctor now1 now2 chunks outcome s).1 = []
  /\ isLoading (handleSubmitAsync ctor now1 now2 chunks outcome s).1 = false.
Proof.
  intros Ht [g Hg] Hfresh. split.
  - rewrite (handleSubmitAsync_messages _ _ _ _ _ _ g Ht Hg).
    rewrite updateWhere_app, (updateWhere_fresh _ _ _ Hfresh). f_equal.
    unfold updateWhere. rewrite !fmap_cons, fmap_nil.
    rewrite bool_decide_eq_false_2 by apply user_id_not_bot_id.
    rewrite bool_decide_eq_true_2 by done.
    by destruct outcome, chunks.
  - unfold handleSubmitAsync. rewrite (handleSubmit_accepted _ _ _ _ g Ht Hg).
    match goal with |- context [consume chunks ?t ?s1] =>
      pose proof (consume_frame chunks t s1) as Hf;
      destruct (consume chunks t s1) as [t' s2]
    end.
    cbn [snd] in Hf. destruct Hf as (Hin & _).
    by destruct outcome.
Qed.

Lemma fresh_call_appends_pair_witness :
  truthy (trim (inputValue (draftState [welcomeMessage] (js "Hello") false)))
    = true /\
  is_Some (ensureClient sdkAccepts
             (draftState [welcomeMessage] (js "Hello") false)) /\
  (forall msg, msg ∈ [welcomeMessage] -> id msg <> js "bot-" ++ toString 5) /\
  messages (handleSubmitAsync sdkAccepts 5 5 helloFragments Completed
              (draftState [welcomeMessage] (js "Hello") false)).1
  = helloExchange.
Proof.
  assert (forall msg, msg ∈ [welcomeMessage] ->
                      id msg <> js "bot-" ++ toString 5) as Hfresh.
  { intros msg Hin. apply list_elem_of_singleton in Hin as ->. discriminate. }
  split; [reflexivity |]. split; [by eexists |]. split; [exact Hfresh |].
  apply (fresh_call_appends_pair sdkAccepts 5 5 helloFragments Completed
           (draftState [welcomeMessage] (js "Hello") false));
    [reflexivity | by eexists | exact Hfresh].
Defined.

(** X11: when the clock repeats, so that an earlier message already has
    the identifier of the new placeholder, an accepted call with a
    client rewrites that earlier message too: after a fault its text is
    the error text, after a stream of at least one fragment that ends it
    is the concatenation of the new fragments; its flag is set to false
    in both cases. *)
Theorem repeated_clock_rewrites_earlier
    (ctor : JsString -> option GoogleGenerativeAI) (now1 now2 : Z)
    (chunks : list JsString) (s : State) (j : nat) (msg : Message) :
  truthy (trim (inputValue s)) = true ->
  is_Some (ensureClient ctor s) ->
  messages s !! j = Some msg ->
  id msg = js "bot-" ++ toString now2 ->
  messages (handleSubmitAsync ctor now1 now2 chunks Faulted s).1 !! j
  = Some (withError msg)
  /\ (chunks <> [] ->
      messages (handleSubmitAsync ctor now1 now2 chunks Completed s).1 !! j
      = Some (withDone (withText (concat chunks) msg))).
Proof.
  intros Ht [g Hg] Hj Hid. split.
  - rewrite (handleSubmitAsync_messages _ _ _ _ _ _ g Ht Hg).
    apply updateWhere_lookup_hit; [by apply lookup_app_l_Some | done].
  - intros Hne. rewrite (handleSubmitAsync_messages _ _ _ _ _ _ g Ht Hg).
    rewrite (updateWhere_lookup_hit _ _ _ j msg);
      [by destruct chunks | by apply lookup_app_l_Some | done].
Qed.

Lemma repeated_clock_rewrites_earlier_witness :
  truthy (trim (inputValue (draftState helloExchange (js "Again") false)))
    = true /\
  is_Some (ensureClient sdkAccepts
             (draftState helloExchange (js "Again") false)) /\
  messages (draftState helloExchange (js "Again") false) !! 2
  = Some (placeholder 5 (js "Hi there!") false) /\
  id (placeholder 5 (js "Hi there!") false) = js "bot-" ++ toString 5 /\
  messages (handleSubmitAsync sdkAccepts 9 5 [js "Bye"] Faulted
              (draftState helloExchange (js "Again") false)).1 !! 2
  = Some (placeholder 5 errorText false).
Proof.
  split; [reflexivity |]. split; [by eexists |]. split; [reflexivity |].
  split; [reflexivity |].
  apply (repeated_clock_rewrites_earlier sdkAccepts 9 5 [js "Bye"]
           (draftState helloExchange (js "Again") false) 2
           (placeholder 5 (js "Hi there!") false));
    [reflexivity | by eexists | reflexivity | reflexivity].
Defined.

(** ** Leaving the busy state and the key form *)

(** X12: in every world the event loop reaches with [isLoading] true,
    exactly one call is suspended, and both ways its stream can finish
    are taken: after the end of the stream the last message shows the
    accumulated text, after a fault it shows the error text; either way
    its flag is false, no cursor is left, nothing is suspended,
    [isLoading] is false and the draft field accepts input again. *)
Theorem stream_finish_recovers
    (ctor : JsString -> option GoogleGenerativeAI) (w : World) :
  reachable ctor w ->
  isLoading (ui w) = true ->
  exists t wEnd wErr,
    pending w = [t] /\
    step ctor w (StreamEnd 0) = Some wEnd /\
    step ctor w (StreamError 0) = Some wErr /\
    (exists msg, last (messages (ui wEnd)) = Some msg /\
                 text msg = fullText t /\ isStreaming msg = Some false) /\
    (exists msg, last (messages (ui wErr)) = Some msg /\
                 text msg = errorText /\ isStreaming msg = Some false) /\
    (forall w', w' = wEnd \/ w' = wErr ->
       pending w' = [] /\ isLoading (ui w') = false /\
       streamingCount (messages (ui w')) = 0 /\
       forall value, is_Some (step ctor w' (InputChange value))).
Proof.
  intros Hr Hl. apply reachable_invariants in Hr as [Hs Hc].
  pose proof Hs as [Hbusy Hp].
  pose proof Hc as (_ & _ & _ & _ & _ & Hpend).
  destruct (Hbusy Hl) as [_ Hset].
  destruct (pending w) as [|t [|t' p]] eqn:Hpe; [| | done].
  { destruct Hp as [Hp _]. congruence. }
  apply Forall_singleton in Hpend
    as (now & msg & Hb & Hlast & Hid & Htxt & Hstr & Hsnd).
  assert (step ctor w (StreamEnd 0)
          = Some {| ui := onStreamEnd t (ui w); pending := [];
                    log := log w |}) as HEnd.
  { simpl. by rewrite Hpe. }
  assert (step ctor w (StreamError 0)
          = Some {| ui := (onStreamError t (ui w)).1; pending := [];
                    log := log w ++ (onStreamError t (ui w)).2 |}) as HErr.
  { simpl. by rewrite Hpe. }
  eexists t, _, _. split; [done |]. split; [exact HEnd |].
  split; [exact HErr |]. split; [| split].
  - exists (withDone msg). cbn [ui onStreamEnd messages setMessages setIsLoading].
    unfold markDone. rewrite updateWhere_last, Hlast. simpl.
    by rewrite bool_decide_eq_true_2, Htxt.
  - exists (withError msg).
    cbn [ui onStreamError fst messages setMessages setIsLoading].
    unfold writeError. rewrite updateWhere_last, Hlast. simpl.
    by rewrite bool_decide_eq_true_2.
  - intros w' Hw'.
    assert (sessionInv w' /\ isApiKeySet (ui w') = true) as [[_ Hp'] Hset'].
    { destruct Hw' as [-> | ->]; (split; [| exact Hset]).
      - exact (step_sessionInv _ _ _ _ Hs HEnd).
      - exact (step_sessionInv _ _ _ _ Hs HErr). }
    assert (pending w' = []) as Hnil by (by destruct Hw' as [-> | ->]).
    rewrite Hnil in Hp'. destruct Hp' as [Hl' Hc'].
    split; [done |]. split; [done |]. split; [done |].
    intros value. simpl. by rewrite Hset', Hl'.
Qed.

Lemma stream_finish_recovers_witness :
  reachable sdkAccepts (worldAfter helloStreaming) /\
  isLoading (ui (worldAfter helloStreaming)) = true /\
  exists t wEnd wErr,
    pending (worldAfter helloStreaming) = [t] /\
    step sdkAccepts (worldAfter helloStreaming) (StreamEnd 0) = Some wEnd /\
    step sdkAccepts (worldAfter helloStreaming) (StreamError 0) = Some wErr.
Proof.
  split; [by exists helloStreaming |]. split; [reflexivity |].
  destruct (stream_finish_recovers sdkAccepts (worldAfter helloStreaming))
    as (t & wEnd & wErr & Hp & HEnd & HErr & _);
    [by exists helloStreaming | reflexivity |].
  by exists t, wEnd, wErr.
Defined.

(** X14: from every world the event loop reaches with the key form
    shown, however many keys were rejected before, typing a key that is
    not empty and that the constructor accepts, and submitting it, opens
    the chat surface: the welcome bubble alone, an empty draft, enabled
    controls; the client is the one built from that key, which is
    stored, and nothing is logged or alerted. *)
Theorem accepted_key_opens_chat
    (ctor : JsString -> option GoogleGenerativeAI) (w : World)
    (typed : JsString) (g : GoogleGenerativeAI) :
  reachable ctor w ->
  isApiKeySet (ui w) = false ->
  typed <> [] ->
  ctor typed = Some g ->
  exists w',
    run ctor w (keySubmitted typed) = Some w' /\
    render (ui w') = ChatSurface [renderMessage welcomeMessage] [] false /\
    genAIRef (ui w') = Some g /\ apiKey (ui w') = typed /\
    pending w' = [] /\ log w' = log w.
Proof.
  intros Hr Hset Htyped Hc.
  apply reachable_invariants in Hr as [_ (Hkey & _)].
  rewrite Hset in Hkey. destruct Hkey as (Hm & Hp & Hin & Hl & Hg).
  assert (truthy typed = true) as Ht by (by destruct typed).
  eexists. split.
  { unfold keySubmitted. cbn [run step]. rewrite Hset.
    cbn [mbind option_bind ui setApiKeyInput isApiKeySet apiKeyInput].
    rewrite Hset, Ht. cbn [orb negb]. unfold handleApiKeySubmit.
    cbn [apiKeyInput setApiKeyInput]. rewrite Hc. reflexivity. }
  cbn [ui pending log]. unfold render. simpl.
  by rewrite Hm, Hin, Hl, app_nil_r.
Qed.

Lemma accepted_key_opens_chat_witness :
  reachable sdkPicky (worldAfterWith sdkPicky (keySubmitted (js "bad"))) /\
  isApiKeySet (ui (worldAfterWith sdkPicky (keySubmitted (js "bad"))))
  = false /\
  js "k" <> [] /\
  sdkPicky (js "k") = Some {| client_apiKey := js "k" |} /\
  exists w',
    run sdkPicky (worldAfterWith sdkPicky (keySubmitted (js "bad")))
      (keySubmitted (js "k")) = Some w' /\
    render (ui w') = ChatSurface [renderMessage welcomeMessage] [] false.
Proof.
  split; [by exists (keySubmitted (js "bad")) |]. split; [reflexivity |].
  split; [discriminate |]. split; [reflexivity |].
  destruct (accepted_key_opens_chat sdkPicky
              (worldAfterWith sdkPicky (keySubmitted (js "bad"))) (js "k")
              {| client_apiKey := js "k" |})
    as (w' & Hrun & Hview & _);
    [by exists (keySubmitted (js "bad")) | reflexivity | discriminate
    | reflexivity |].
  by exists w'.
Defined.

(** ** Queued updates and renders *)










